(** * teuthology.provision.cloud.openstack

    A shallow embedding of the OpenStack provisioner
    (src/teuthology/provision/cloud/openstack.py) and the properties
    of its retry wrapper, configuration merge, resource selectors,
    volume provisioning / rollback and destruction workflow. *)

From Stdlib Require Import List String Ascii ZArith Lia Bool Arith.
Import ListNotations.
Open Scope string_scope.
Open Scope Z_scope.

Set Implicit Arguments.
Set Warnings "-register-all".

(* ================================================================== *)
(** * Python strings *)

Module PyStr.

(** [str.lower] on a byte string: only ASCII capitals are changed. *)
Definition lower_ascii (c : ascii) : ascii :=
  let n := nat_of_ascii c in
  if ((65 <=? n)%nat && (n <=? 90)%nat)%bool
  then ascii_of_nat (n + 32) else c.

Fixpoint lower (s : string) : string :=
  match s with
  | EmptyString => EmptyString
  | String c s' => String (lower_ascii c) (lower s')
  end.

(** [prefix.startswith] is [String.prefix]; [needle in hay] looks for
    the needle at every offset of the haystack. *)
Definition startswith (s pre : string) : bool := String.prefix pre s.

Fixpoint contains (needle hay : string) : bool :=
  String.prefix needle hay
  || match hay with
     | EmptyString => false
     | String _ hay' => contains needle hay'
     end.

(** Decimal rendering, [str(n)] for a natural number.  The fuel is
    never exhausted: every round divides by ten. *)
Definition digit (n : nat) : ascii := ascii_of_nat (48 + n mod 10).

Fixpoint digits (fuel n : nat) (acc : string) : string :=
  match fuel with
  | O => acc
  | S fuel' =>
      let acc' := String (digit n) acc in
      if (n <? 10)%nat then acc' else digits fuel' (n / 10) acc'
  end.

Definition str_nat (n : nat) : string := digits (S n) n "".

(** [str(z)] for an int. *)
Definition str (z : Z) : string :=
  if z <? 0 then "-" ++ str_nat (Z.abs_nat z) else str_nat (Z.to_nat z).

Fixpoint zeros (k : nat) : string :=
  match k with
  | O => ""
  | S k' => String "0" (zeros k')
  end.

(** ["%0<width>d" % z]: the sign first, then zeros up to the width;
    a longer number is never cut. *)
Definition fmt_0d (width : nat) (z : Z) : string :=
  if z <? 0
  then let d := str_nat (Z.abs_nat z) in
       "-" ++ zeros (width - 1 - String.length d) ++ d
  else let d := str_nat (Z.to_nat z) in
       zeros (width - String.length d) ++ d.

End PyStr.

(* ================================================================== *)
(** * Exceptions and results *)

Inductive exn : Type :=
| RateLimitReachedError
| MaxWhileTries
| RuntimeError (args : list string)
| IndexError
| AttributeError
| KeyError (key : string)
| TypeError
| SocketError
| NoValidConnectionsError
| AuthenticationException
| HTTPError
| BackendError (what : string).

Inductive result (A : Type) : Type :=
| Ok (a : A)
| Raise (e : exn).
Arguments Ok {A} a.
Arguments Raise {A} e.

(** [RETRY_EXCEPTIONS = (RateLimitReachedError, )] *)
Definition RETRY_EXCEPTIONS (e : exn) : bool :=
  match e with
  | RateLimitReachedError => true
  | _ => false
  end.

(* ================================================================== *)
(** * Catalog entries *)

Record Image := mkImage { image_id : Z; image_name : string }.
Record Size := mkSize { size_name : string; ram : Z; disk : Z; vcpus : Z }.
Record SecurityGroup := mkGroup { group_id : Z; group_name : string }.
Record Network := mkNetwork { network_id : Z; network_name : string }.
Record Node := mkNode { node_id : Z; node_name : string }.
Record Volume := mkVolume { volume_id : Z; volume_name : string }.

Definition nonempty {A} (l : list A) : bool :=
  match l with [] => false | _ :: _ => true end.

(* ================================================================== *)
(** * Resource selectors (pure part of the properties) *)

Module Select.

(** ** image *)

(** The two entries of [os_specs], applied with [str.format]. *)
Definition os_specs : list (string -> string -> string) :=
  [ (fun os_type os_version => os_type ++ " " ++ os_version);
    (fun os_type os_version => os_type ++ "-" ++ os_version) ].

Definition image_matches (wanted : string) (images : list Image) : list Image :=
  filter (fun image => PyStr.contains wanted (PyStr.lower (image_name image)))
         images.

(** The [for spec in os_specs] loop; [matches] is the variable that
    survives the loop. *)
Fixpoint image_loop (specs : list (string -> string -> string))
         (images : list Image) (os_type os_version : string)
         (matches : list Image) : list Image :=
  match specs with
  | [] => matches
  | spec :: specs' =>
      let matches := image_matches (spec os_type os_version) images in
      if nonempty matches then matches
      else image_loop specs' images os_type os_version matches
  end.

Definition image_error (os_type os_version : string) : exn :=
  RuntimeError ["Could not find an image for %s %s"; os_type; os_version].

Definition image (images : list Image) (os_type os_version : string)
  : result Image :=
  match image_loop os_specs images os_type os_version [] with
  | [] => Raise (image_error os_type os_version)
  | first :: _ => Ok first
  end.

(** ** size *)

Definition good_size (ram_ disk_ cpu : Z) (size : Size) : bool :=
  if (ram size <? ram_) || (disk size <? disk_) || (vcpus size <? cpu)
  then false else true.

Definition size_key (s : Size) : Z * Z * Z := (ram s, disk s, vcpus s).

(** Tuple comparison of Python: lexicographic. *)
Definition key_lt (a b : Z * Z * Z) : bool :=
  let '(a1, a2, a3) := a in
  let '(b1, b2, b3) := b in
  (a1 <? b1) || ((a1 =? b1) && ((a2 <? b2) || ((a2 =? b2) && (a3 <? b3)))).

(** [sorted(..., key=...)] is a stable sort; the stable sorted
    arrangement of a list is unique, so it is given here by stable
    insertion: a new element goes before the first strictly larger
    one. *)
Fixpoint insert_by {A} (key : A -> Z * Z * Z) (x : A) (l : list A) : list A :=
  match l with
  | [] => [x]
  | y :: l' =>
      if key_lt (key x) (key y) then x :: y :: l'
      else y :: insert_by key x l'
  end.

Definition sorted {A} (l : list A) (key : A -> Z * Z * Z) : list A :=
  fold_left (fun acc x => insert_by key x acc) l [].

Definition size (all_sizes : list Size) (ram_ disk_ cpu : Z) : result Size :=
  let good_sizes := filter (good_size ram_ disk_ cpu) all_sizes in
  match sorted good_sizes size_key with
  | [] => Raise IndexError
  | smallest_match :: _ => Ok smallest_match
  end.

(** ** security groups *)

Definition group_matches (groups : list SecurityGroup) (name : string)
  : list SecurityGroup :=
  filter (fun group => String.eqb (group_name group) name) groups.

Definition no_group_error (name : string) : exn :=
  RuntimeError ["No security groups found with name '" ++ name ++ "'"].
Definition many_groups_error (name : string) : exn :=
  RuntimeError ["More than one security group found with name '" ++ name ++ "'"].

Fixpoint groups_loop (groups : list SecurityGroup) (group_names : list string)
         (result_ : list SecurityGroup) : result (list SecurityGroup) :=
  match group_names with
  | [] => Ok result_
  | name :: names' =>
      match group_matches groups name with
      | [] => Raise (no_group_error name)
      | [g] => groups_loop groups names' (result_ ++ [g])
      | _ :: _ :: _ => Raise (many_groups_error name)
      end
  end.

(** [None] stands for Python's [None]: no restriction. *)
Definition security_groups (group_names : option (list string))
           (groups : list SecurityGroup)
  : result (option (list SecurityGroup)) :=
  match group_names with
  | None => Ok None
  | Some names =>
      match groups_loop groups names [] with
      | Ok r => Ok (Some r)
      | Raise e => Raise e
      end
  end.

End Select.

(* ================================================================== *)
(** * Configuration values and their merge *)

Module Conf.

(** A configuration is what [yaml] loads: numbers, strings, lists
    and string-keyed mappings. *)
Inductive value : Type :=
| Num (z : Z)
| Str (s : string)
| Lst (l : list value)
| Dict (d : dict)
with dict : Type :=
| DNil
| DCons (key : string) (v : value) (rest : dict).

Fixpoint get (key : string) (d : dict) : option value :=
  match d with
  | DNil => None
  | DCons k v rest => if String.eqb k key then Some v else get key rest
  end.

(** [d[key] = v] *)
Fixpoint set (key : string) (v : value) (d : dict) : dict :=
  match d with
  | DNil => DCons key v DNil
  | DCons k v0 rest =>
      if String.eqb k key then DCons k v rest
      else DCons k v0 (set key v rest)
  end.

Fixpoint has_key (key : string) (d : dict) : bool :=
  match d with
  | DNil => false
  | DCons k _ rest => String.eqb k key || has_key key rest
  end.

(** Keys of a mapping are unique, at every depth the merge walks. *)
Fixpoint wf (v : value) : bool :=
  match v with
  | Dict d => wf_dict d
  | _ => true
  end
with wf_dict (d : dict) : bool :=
  match d with
  | DNil => true
  | DCons k v rest => negb (has_key k rest) && wf v && wf_dict rest
  end.

(** Truth value of a configuration object ([conf or dict()]). *)
Definition truthy (v : value) : bool :=
  match v with
  | Num z => negb (z =? 0)
  | Str s => negb (String.eqb s "")
  | Lst l => nonempty l
  | Dict DNil => false
  | Dict (DCons _ _ _) => true
  end.

(** Modelled from the spec: [util.combine_dicts] and the
    [selective_update] it is built on (teuthology/provision/cloud/util.py,
    whose source is not available).  The resolver folds the sources
    left to right;
    for a numeric leaf present on both sides it keeps the maximum
    (here: the incoming number replaces the stored one when the
    comparison passed by the caller, [lambda x, y: x > y], holds);
    list values are concatenated; mappings are merged key by key;
    for any other value the source of higher precedence, which was
    applied first, stays.  Nothing is said about a key that is a
    number in one source and a mapping in another: the stored value
    stays, and a source that is not a mapping contributes nothing. *)
Fixpoint merge (func : Z -> Z -> bool) (old new : value) {struct new} : value :=
  match new with
  | Num x =>
      match old with
      | Num y => if func x y then new else old
      | _ => old
      end
  | Lst x =>
      match old with
      | Lst y => Lst (y ++ x)
      | _ => old
      end
  | Dict b =>
      match old with
      | Dict a => Dict (selective_update func a b)
      | _ => old
      end
  | Str _ => old
  end
with selective_update (func : Z -> Z -> bool) (a b : dict) {struct b} : dict :=
  match b with
  | DNil => a
  | DCons key v rest =>
      let a' := match get key a with
                | None => set key v a
                | Some stored => set key (merge func stored v) a
                end in
      selective_update func a' rest
  end.

Definition combine_dicts (list_of_dicts : list value) (func : Z -> Z -> bool)
  : value :=
  fold_left (merge func) list_of_dicts (Dict DNil).

(** [OpenStackProvisioner.defaults] *)
Definition defaults : dict :=
  DCons "openstack"
    (Dict (DCons "machine"
             (Dict (DCons "disk" (Num 20)
                   (DCons "ram" (Num 8000)
                   (DCons "cpus" (Num 1) DNil))))
          (DCons "volumes"
             (Dict (DCons "count" (Num 0)
                   (DCons "size" (Num 0) DNil)))
           DNil)))
    DNil.

(** [x or dict()] *)
Definition or_dict (x : option value) : value :=
  match x with
  | Some v => if truthy v then v else Dict DNil
  | None => Dict DNil
  end.

(** [d.get(key, dict())] *)
Definition get_or_dict (key : string) (d : dict) : value :=
  match get key d with
  | Some v => v
  | None => Dict DNil
  end.

(** The loop of [_read_conf] that flattens the four objects. *)
Fixpoint flatten (objs : list value) (confs : list value) : list value :=
  match objs with
  | [] => confs
  | obj :: objs' =>
      match obj with
      | Lst l => flatten objs' (confs ++ l)
      | _ => flatten objs' (confs ++ [obj])
      end
  end.

(** The four objects [_read_conf] looks through, in its order.
    [conf] is the mapping passed by the caller ([None] when there is
    none), [legacy] is [getattr(config, driver_name)] of the global
    teuthology configuration. *)
Definition sources (driver_name : string) (conf : option dict)
           (legacy : option value) : list value :=
  let full_conf := match conf with Some d => d | None => DNil end in
  let driver_conf := get_or_dict driver_name full_conf in
  let legacy_conf := or_dict legacy in
  let defaults_ := get_or_dict driver_name defaults in
  [Dict full_conf; driver_conf; legacy_conf; defaults_].

(** [_read_conf]: the value stored as [self.conf].  The first
    argument is [self.provider.driver_name]. *)
Definition _read_conf (provider_driver_name : string) (conf : option dict)
           (legacy : option value) : value :=
  let driver_name := PyStr.lower provider_driver_name in
  let confs := flatten (sources driver_name conf legacy) [] in
  combine_dicts confs (fun x y => x >? y).

(** [v[key]] and the use of a value as an int. *)
Definition item (v : value) (key : string) : result value :=
  match v with
  | Dict d =>
      match get key d with
      | Some x => Ok x
      | None => Raise (KeyError key)
      end
  | _ => Raise TypeError
  end.

Definition as_int (v : value) : result Z :=
  match v with
  | Num z => Ok z
  | _ => Raise TypeError
  end.

(** ** Reading a key path *)

Inductive at_path : Type :=
| Absent                (* no source line defines the key *)
| IsNum (z : Z)         (* a numeric leaf *)
| Other.                (* something else is in the way *)

Fixpoint look (path : list string) (v : value) : at_path :=
  match path, v with
  | [], Num z => IsNum z
  | [], _ => Other
  | key :: path', Dict d =>
      match get key d with
      | None => Absent
      | Some v' => look path' v'
      end
  | _ :: _, _ => Other
  end.

(** The numbers that the sources give for one key path. *)
Definition defined_values (path : list string) (confs : list value) : list Z :=
  flat_map (fun c => match look path c with IsNum z => [z] | _ => [] end) confs.

(** How two readings of one key path combine. *)
Definition join (x y : at_path) : at_path :=
  match x, y with
  | Absent, r => r
  | r, Absent => r
  | IsNum a, IsNum b => IsNum (Z.max a b)
  | _, _ => Other
  end.

(** The comparison [_read_conf] passes: [lambda x, y: x > y]. *)
Definition greater (x y : Z) : bool := x >? y.

(** A source the statement speaks about: unique keys, and the path is
    either left out or leads to a number. *)
Definition usable (path : list string) (c : value) : bool :=
  wf c && match look path c with Other => false | _ => true end.

Definition own_values (x : at_path) : list Z :=
  match x with IsNum z => [z] | _ => [] end.

End Conf.

(* ================================================================== *)
(** * The backend and the provisioner's state *)

(** Keyword arguments of [driver.create_node]. *)
Record create_args := mkCreateArgs {
  arg_name : string;
  arg_size : Size;
  arg_image : Image;
  arg_ex_userdata : string;
  arg_networks : option (list Network);
  arg_ex_security_groups : option (list SecurityGroup)
}.

(** One entry per invocation of a collaborator. *)
Inductive call : Type :=
| Call_list_images
| Call_list_sizes
| Call_ex_list_networks
| Call_ex_list_security_groups
| Call_list_nodes
| Call_list_volumes
| Call_create_node (args : create_args)
| Call_wait_until_running (nodes : list (option Node))
| Call_create_volume (size : Conf.value) (name : string)
| Call_attach_volume (node : option Node) (volume : Volume)
| Call_detach_volume (volume : Volume)
| Call_destroy_volume (volume : Volume)
| Call_destroy_node (node : Node)
| Call_nsupdate (name ip : string)
| Call_remote_connect
| Call_remote_run (cmd : string) (timeout : Z).

Inductive log_level := DEBUG | INFO | WARNING | ERROR.

Inductive log_arg : Type :=
| AStr (s : string)
| ANat (n : nat)
| ACall (c : call)
| ANode (n : option Node)
| AVolume (v : Volume)
| ASize (s : Size)
| AImage (i : Image)
| AExn (e : exn).

Record log_record := mkLog {
  level : log_level;
  msg : string;
  log_args : list log_arg
}.

Section Backend.

(** The state of the cloud (and of the other remote collaborators) is
    left open; every operation may change it and may raise. *)
Variable W : Type.

Definition op (A : Type) : Type := W -> result A * W.

Record Driver := mkDriver {
  list_images : op (list Image);
  list_sizes : op (list Size);
  ex_list_networks : op (list Network);
  ex_list_security_groups : op (list SecurityGroup);
  list_nodes : op (list Node);
  list_volumes : op (list Volume);
  create_node : create_args -> op Node;
  wait_until_running : list (option Node) -> op (list (Node * list string));
  create_volume : Conf.value -> string -> op Volume;
  attach_volume : option Node -> Volume -> op bool;
  detach_volume : Volume -> op bool;
  destroy_volume : Volume -> op bool;
  destroy_node : Node -> op bool;
  (* requests.get(nsupdate_url) followed by raise_for_status() *)
  nsupdate : string -> string -> op unit;
  (* self.remote *)
  remote_connect : op unit;
  remote_run : string -> Z -> op unit
}.

(** [teuthology.provision.cloud.base.Provider], as far as it is read here. *)
Record Provider := mkProvider {
  driver_name : string;
  driver : Driver;
  (* provider.conf.get('exclude_sizes') and .get('security_groups') *)
  conf_exclude_sizes : option string;
  conf_security_groups : option (list string);
  (* re.match, of the Python library *)
  re_match : string -> string -> bool
}.

Record Provisioner := mkProvisioner {
  provider : Provider;
  name : string;
  os_type : string;
  os_version : string;
  conf : Conf.value;
  (* the text built by the userdata property (yaml dump, ssh key) *)
  userdata : string
}.

(** What changes while the provisioner runs: the backend, the
    attributes set with [self._x = ...] ([None]: no such attribute
    yet), and what an observer sees (calls, log, time slept). *)
Record state := mkState {
  backend : W;
  calls : list call;
  logged : list log_record;
  slept : Z;
  _images : option (list Image);
  _sizes : option (list Size);
  _networks : option (list Network);
  _security_groups : option (list SecurityGroup);
  _node : option Node;
  ips : option (list string)
}.

Definition with_backend (w : W) (c : list call) (s : state) : state :=
  mkState w c (logged s) (slept s) (_images s) (_sizes s) (_networks s)
          (_security_groups s) (_node s) (ips s).
Definition with_logged (l : list log_record) (s : state) : state :=
  mkState (backend s) (calls s) l (slept s) (_images s) (_sizes s)
          (_networks s) (_security_groups s) (_node s) (ips s).
Definition with_slept (t : Z) (s : state) : state :=
  mkState (backend s) (calls s) (logged s) t (_images s) (_sizes s)
          (_networks s) (_security_groups s) (_node s) (ips s).
Definition with_images (x : list Image) (s : state) : state :=
  mkState (backend s) (calls s) (logged s) (slept s) (Some x) (_sizes s)
          (_networks s) (_security_groups s) (_node s) (ips s).
Definition with_sizes (x : list Size) (s : state) : state :=
  mkState (backend s) (calls s) (logged s) (slept s) (_images s) (Some x)
          (_networks s) (_security_groups s) (_node s) (ips s).
Definition with_networks (x : list Network) (s : state) : state :=
  mkState (backend s) (calls s) (logged s) (slept s) (_images s) (_sizes s)
          (Some x) (_security_groups s) (_node s) (ips s).
Definition with_security_groups (x : list SecurityGroup) (s : state) : state :=
  mkState (backend s) (calls s) (logged s) (slept s) (_images s) (_sizes s)
          (_networks s) (Some x) (_node s) (ips s).
Definition with_node (x : Node) (s : state) : state :=
  mkState (backend s) (calls s) (logged s) (slept s) (_images s) (_sizes s)
          (_networks s) (_security_groups s) (Some x) (ips s).
Definition with_ips (x : list string) (s : state) : state :=
  mkState (backend s) (calls s) (logged s) (slept s) (_images s) (_sizes s)
          (_networks s) (_security_groups s) (_node s) (Some x).

(** ** The monad of the provisioner: state and exceptions *)

Definition M (A : Type) : Type := state -> result A * state.

Definition ret {A} (a : A) : M A := fun s => (Ok a, s).
Definition raise {A} (e : exn) : M A := fun s => (Raise e, s).
Definition bind {A B} (m : M A) (k : A -> M B) : M B :=
  fun s => match m s with
           | (Ok a, s') => k a s'
           | (Raise e, s') => (Raise e, s')
           end.

(** [try: body except <handles>: handler]; an exception the clause
    does not name goes on. *)
Definition try_except {A} (body : M A) (handles : exn -> bool)
           (handler : exn -> M A) : M A :=
  fun s => match body s with
           | (Ok a, s') => (Ok a, s')
           | (Raise e, s') => if handles e then handler e s' else (Raise e, s')
           end.

(** Every class of [exn] derives from [Exception]. *)
Definition Exception (e : exn) : bool := true.

Definition get {A} (f : state -> A) : M A := fun s => (Ok (f s), s).
Definition modify (f : state -> state) : M unit := fun s => (Ok tt, f s).
Definition lift {A} (r : result A) : M A := fun s => (r, s).

(** Calling a collaborator: the call is recorded, the backend moves. *)
Definition invoke {A} (c : call) (f : op A) : M A :=
  fun s => let (r, w) := f (backend s) in
           (r, with_backend w (calls s ++ [c]) s).

Definition log (lv : log_level) (m : string) (args : list log_arg) : M unit :=
  modify (fun s => with_logged (logged s ++ [mkLog lv m args]) s).

(** [log.exception]: level ERROR, with the exception in flight. *)
Definition log_exception (m : string) (args : list log_arg) (e : exn) : M unit :=
  log ERROR m (args ++ [AExn e]).

Definition sleep (t : Z) : M unit :=
  modify (fun s => with_slept (slept s + t) s).

End Backend.

Arguments ret {W A} a.
Arguments raise {W A} e.
Arguments get {W A} f.
Arguments lift {W A} r.
Arguments log {W} lv m args.
Arguments log_exception {W} m args e.
Arguments sleep {W} t.
Arguments mkState {W}.

Declare Scope py_scope.
Delimit Scope py_scope with py.
Notation "x <- m ;; k" := (bind m (fun x => k))
  (at level 61, m at next level, right associativity) : py_scope.
Notation "m ;; k" := (bind m (fun _ => k))
  (at level 61, right associativity) : py_scope.
Open Scope py_scope.

(* ================================================================== *)
(** * retry *)

(** Modelled from the spec: [safe_while] (teuthology/contextutil.py,
    whose source is not available).  It bounds a loop to [tries]
    attempts; before every attempt but the first it waits, the delay starting at [sleep] and growing by
    [increment]; once the budget is used up a timeout error
    ([MaxWhileTries]) propagates. *)
Record safe_while := mkSafeWhile {
  sw_sleep : Z;
  sw_tries : nat;
  sw_increment : Z;
  counter : nat;
  sleep_current : Z
}.

Definition new_safe_while (sleep_ : Z) (tries : nat) (increment : Z) : safe_while :=
  mkSafeWhile sleep_ tries increment 0 sleep_.

Definition proceed {W} (sw : safe_while) : M W safe_while :=
  let n := S (counter sw) in
  if (n =? 1)%nat
  then ret (mkSafeWhile (sw_sleep sw) (sw_tries sw) (sw_increment sw) n
                        (sleep_current sw))
  else if (sw_tries sw <? n)%nat
  then raise MaxWhileTries
  else sleep (sleep_current sw) ;;
       ret (mkSafeWhile (sw_sleep sw) (sw_tries sw) (sw_increment sw) n
                        (sleep_current sw + sw_increment sw)).

Section Retry.

Context {W : Type} {A : Type}.

(** The [while proceed()] loop of [retry].  [c] names the call that
    [function] stands for; [fuel] only bounds the recursion, the
    loop is left through [proceed] before it runs out. *)
Fixpoint retry_loop (fuel : nat) (sw : safe_while) (tries : nat)
         (c : call) (function : op W A) : M W A :=
  match fuel with
  | O => raise MaxWhileTries
  | S fuel' =>
      sw' <- proceed sw ;;
      let tries := S tries in
      try_except
        (result_ <- invoke c function ;;
         (if (1 <? tries)%nat
          then log DEBUG "'%s' succeeded after %s tries" [ACall c; ANat tries]
          else ret tt) ;;
         ret result_)
        RETRY_EXCEPTIONS
        (fun _ => retry_loop fuel' sw' tries c function)
  end.

Definition retry_tries : nat := 24.

Definition retry (c : call) (function : op W A) : M W A :=
  retry_loop (S retry_tries) (new_safe_while 1 retry_tries 1) 0 c function.

End Retry.

(* ================================================================== *)
(** * OpenStackProvider: cached catalogs *)

Section OpenStackProvider.

Context {W : Type} (self : Provider W).

Definition images : M W (list Image) :=
  cached <- get (@_images W) ;;
  match cached with
  | Some x => ret x
  | None =>
      x <- retry Call_list_images (list_images (driver self)) ;;
      modify (with_images x) ;;
      ret x
  end.

Definition sizes : M W (list Size) :=
  cached <- get (@_sizes W) ;;
  match cached with
  | Some x => ret x
  | None =>
      let exclude_sizes :=
        match conf_exclude_sizes self with
        | Some x => x
        | None => "win-.*"
        end in
      sizes_ <- retry Call_list_sizes (list_sizes (driver self)) ;;
      let sizes_ :=
        if String.eqb exclude_sizes "" then sizes_
        else filter (fun s => negb (re_match self exclude_sizes (size_name s)))
                    sizes_ in
      modify (with_sizes sizes_) ;;
      ret sizes_
  end.

Definition is_AttributeError (e : exn) : bool :=
  match e with AttributeError => true | _ => false end.

Definition networks : M W (list Network) :=
  cached <- get (@_networks W) ;;
  match cached with
  | Some x => ret x
  | None =>
      try_except
        (x <- retry Call_ex_list_networks (ex_list_networks (driver self)) ;;
         modify (with_networks x))
        is_AttributeError
        (fun _ => log WARNING "Unable to list networks for %s" [] ;;
                  modify (with_networks [])) ;;
      now_ <- get (@_networks W) ;;
      match now_ with Some x => ret x | None => raise AttributeError end
  end.

Definition provider_security_groups : M W (list SecurityGroup) :=
  cached <- get (@_security_groups W) ;;
  match cached with
  | Some x => ret x
  | None =>
      try_except
        (x <- retry Call_ex_list_security_groups
                    (ex_list_security_groups (driver self)) ;;
         modify (with_security_groups x))
        is_AttributeError
        (fun _ => log WARNING "Unable to list security groups for %s" [] ;;
                  modify (with_security_groups [])) ;;
      now_ <- get (@_security_groups W) ;;
      match now_ with Some x => ret x | None => raise AttributeError end
  end.

End OpenStackProvider.

(* ================================================================== *)
(** * OpenStackProvisioner *)

(** What [_create] hands back: [False], or [self.node]. *)
Inductive create_result : Type :=
| ReturnFalse
| ReturnNode (node : option Node).

Section OpenStackProvisioner.

Context {W : Type} (self : Provisioner W).

Let drv : Driver W := driver (provider self).

Definition _sentinel_path : string := "/.teuth_provisioned".

Definition item (v : Conf.value) (key : string) : M W Conf.value :=
  lift (Conf.item v key).

Definition as_int (v : Conf.value) : M W Z := lift (Conf.as_int v).

(** ** node *)

Definition node_matches (nodes : list Node) : list Node :=
  filter (fun node => String.eqb (node_name node) (name self)) nodes.

(** [return self._node] *)
Definition return__node : M W (option Node) :=
  attr <- get (@_node W) ;;
  match attr with
  | Some n => ret (Some n)
  | None => raise AttributeError
  end.

Definition node : M W (option Node) :=
  attr <- get (@_node W) ;;
  match attr with
  | Some _ => return__node
  | None =>
      nodes <- retry Call_list_nodes (list_nodes drv) ;;
      match nodes with
      | [] =>
          (* the body of [for node in nodes] never runs *)
          return__node
      | _ :: _ =>
          (* first round of the loop; every branch leaves it *)
          match node_matches nodes with
          | [] =>
              log WARNING ("No nodes found with name '" ++ name self ++ "'") [] ;;
              ret None
          | [found] =>
              modify (with_node found) ;;
              return__node
          | _ :: _ :: _ =>
              raise (RuntimeError
                       ["More than one node found with name '"
                          ++ name self ++ "'"])
          end
      end
  end.

(** ** image, size, security_groups *)

Definition image : M W Image :=
  imgs <- images (provider self) ;;
  lift (Select.image imgs (os_type self) (os_version self)).

Definition size : M W Size :=
  machine <- item (conf self) "machine" ;;
  ram_ <- (v <- item machine "ram" ;; as_int v) ;;
  disk_ <- (v <- item machine "disk" ;; as_int v) ;;
  cpu <- (v <- item machine "cpus" ;; as_int v) ;;
  all_sizes <- sizes (provider self) ;;
  lift (Select.size all_sizes ram_ disk_ cpu).

Definition security_groups : M W (option (list SecurityGroup)) :=
  match conf_security_groups (provider self) with
  | None => ret None
  | Some group_names =>
      groups <- provider_security_groups (provider self) ;;
      lift (Select.security_groups (Some group_names) groups)
  end.

(** ** volumes *)

Definition range (n : Z) : list Z := map Z.of_nat (seq 0 (Z.to_nat n)).

Definition vol_names (vol_count : Z) : list string :=
  let width := String.length (PyStr.str (vol_count - 1)) in
  map (fun i => name self ++ "_" ++ PyStr.fmt_0d width i) (range vol_count).

Fixpoint for_each {B} (l : list B) (body : B -> M W unit) : M W unit :=
  match l with
  | [] => ret tt
  | x :: l' => body x ;; for_each l' body
  end.

(** Body of the loop of [_create_volumes]. *)
Definition create_and_attach (vol_size : Conf.value) (name_ : string) : M W unit :=
  volume <- retry (Call_create_volume vol_size name_)
                  (create_volume drv vol_size name_) ;;
  log INFO "Created volume %s" [AVolume volume] ;;
  node_ <- node ;;
  _ <- retry (Call_attach_volume node_ volume)
             (attach_volume drv node_ volume) ;;
  ret tt.

Definition _create_volumes : M W bool :=
  volumes <- item (conf self) "volumes" ;;
  vol_count <- (v <- item volumes "count" ;; as_int v) ;;
  volumes <- item (conf self) "volumes" ;;
  vol_size <- item volumes "size" ;;
  try_except
    (for_each (vol_names vol_count) (create_and_attach vol_size) ;;
     ret true)
    Exception
    (fun e => log_exception "Failed to create or attach volume!" [] e ;;
              ret false).

Definition our_volumes (all_volumes : list Volume) : list Volume :=
  filter (fun vol => PyStr.startswith (volume_name vol) (name self ++ "_"))
         all_volumes.

(** Body of the loop of [_destroy_volumes]: two guarded steps. *)
Definition try_detach (vol : Volume) : M W unit :=
  try_except
    (_ <- retry (Call_detach_volume vol) (detach_volume drv vol) ;; ret tt)
    Exception
    (fun e => log_exception "Could not detach volume %s" [AVolume vol] e).

Definition try_destroy (vol : Volume) : M W unit :=
  try_except
    (_ <- retry (Call_destroy_volume vol) (destroy_volume drv vol) ;; ret tt)
    Exception
    (fun e => log_exception "Could not destroy volume %s" [AVolume vol] e).

Definition detach_and_destroy (vol : Volume) : M W unit :=
  try_detach vol ;; try_destroy vol.

Definition _destroy_volumes : M W unit :=
  all_volumes <- retry Call_list_volumes (list_volumes drv) ;;
  for_each (our_volumes all_volumes) detach_and_destroy.

(** ** _update_dns, _wait_for_ready *)

Definition _update_dns : M W unit :=
  attr <- get (@ips W) ;;
  match attr with
  | None => raise AttributeError
  | Some [] => raise IndexError
  | Some (ip :: _) => invoke (Call_nsupdate (name self) ip)
                             (nsupdate drv (name self) ip)
  end.

Definition not_yet_reachable (e : exn) : bool :=
  match e with
  | SocketError | NoValidConnectionsError | AuthenticationException => true
  | _ => false
  end.

Fixpoint connect_loop (fuel : nat) (sw : safe_while) : M W unit :=
  match fuel with
  | O => raise MaxWhileTries
  | S fuel' =>
      sw' <- proceed sw ;;
      try_except
        (invoke Call_remote_connect (remote_connect drv))
        not_yet_reachable
        (fun _ => connect_loop fuel' sw')
  end.

Definition _wait_for_ready : M W unit :=
  connect_loop 21 (new_safe_while 6 20 0) ;;
  let cmd := "while [ ! -e '" ++ _sentinel_path ++ "' ]; do sleep 5; done" in
  invoke (Call_remote_run cmd 600) (remote_run drv cmd 600) ;;
  node_ <- node ;;
  log INFO "Node is ready: %s" [ANode node_].

(** ** _create *)

(** Lines of [_create] up to "Node started". *)
Definition create_node_and_wait : M W unit :=
  log DEBUG "Creating node: %s" [AStr (name self)] ;;
  size_ <- size ;;
  log DEBUG "Selected size: %s" [ASize size_] ;;
  image_ <- image ;;
  log DEBUG "Selected image: %s" [AImage image_] ;;
  size_ <- size ;;
  image_ <- image ;;
  networks_ <- networks (provider self) ;;
  security_groups_ <- security_groups ;;
  let create_args :=
    mkCreateArgs (name self) size_ image_ (userdata self)
      (if nonempty networks_ then Some networks_ else None)
      (match security_groups_ with
       | Some (g :: gs) => Some (g :: gs)
       | _ => None
       end) in
  created <- retry (Call_create_node create_args) (create_node drv create_args) ;;
  modify (with_node created) ;;
  node_ <- node ;;
  log DEBUG "Created node: %s" [ANode node_] ;;
  node_ <- node ;;
  results <- retry (Call_wait_until_running [node_])
                   (wait_until_running drv [node_]) ;;
  match results with
  | [] => raise IndexError
  | (n, ips_) :: _ =>
      modify (with_node n) ;;
      modify (with_ips ips_) ;;
      node_ <- node ;;
      log DEBUG "Node started: %s" [ANode node_]
  end.

(** Lines of [_create] from the volumes on. *)
Definition create_volumes_and_finish : M W create_result :=
  ok <- _create_volumes ;;
  if negb ok then
    _destroy_volumes ;;
    ret ReturnFalse
  else
    _update_dns ;;
    sleep 20 ;;
    _wait_for_ready ;;
    node_ <- node ;;
    ret (ReturnNode node_).

Definition _create : M W create_result :=
  create_node_and_wait ;;
  create_volumes_and_finish.

(** ** _destroy *)

Definition _destroy : M W bool :=
  node_ <- node ;;
  match node_ with
  | None => ret true
  | Some _ =>
      node_ <- node ;;
      log INFO "Destroying node: %s" [ANode node_] ;;
      _destroy_volumes ;;
      node_ <- node ;;
      match node_ with
      | Some n => invoke (Call_destroy_node n) (destroy_node drv n)
      | None => raise AttributeError
      end
  end.

End OpenStackProvisioner.

(** [__init__]: the attributes are stored and [_read_conf] sets
    [self.conf]; [legacy] is the driver's section of the global
    teuthology configuration and [userdata_] the text of the userdata
    property. *)
Definition OpenStackProvisioner {W} (provider_ : Provider W)
           (name_ os_type_ os_version_ : string) (conf_ : option Conf.dict)
           (legacy : option Conf.value) (userdata_ : string) : Provisioner W :=
  mkProvisioner provider_ name_ os_type_ os_version_
                (Conf._read_conf (driver_name provider_) conf_ legacy)
                userdata_.

(* ================================================================== *)
(** * Notions used to state the properties *)

(** Image selection as the specification words it: both the template
    and the catalog name are compared without regard to case. *)
Module Claimed.

Definition contains_nocase (needle hay : string) : bool :=
  PyStr.contains (PyStr.lower needle) (PyStr.lower hay).

Definition image_matches (wanted : string) (images : list Image) : list Image :=
  filter (fun image => contains_nocase wanted (image_name image)) images.

Definition image (images : list Image) (os_type os_version : string)
  : result Image :=
  match image_matches (os_type ++ " " ++ os_version) images with
  | first :: _ => Ok first
  | [] =>
      match image_matches (os_type ++ "-" ++ os_version) images with
      | first :: _ => Ok first
      | [] => Raise (Select.image_error os_type os_version)
      end
  end.

End Claimed.

(** Lexicographic order on [(ram, disk, vcpus)], spelled out. *)
Definition lex_le (a b : Size) : Prop :=
  ram a < ram b
  \/ (ram a = ram b
      /\ (disk a < disk b \/ (disk a = disk b /\ vcpus a <= vcpus b))).

Definition adequate (ram_ disk_ cpu : Z) (s : Size) : Prop :=
  ram s >= ram_ /\ disk s >= disk_ /\ vcpus s >= cpu.

(** The head of the list is below every other element. *)
Definition head_least (l : list Size) : Prop :=
  match l with
  | [] => True
  | h :: t => forall z, In z t -> lex_le h z
  end.

(** The name has exactly one group of that very name in the catalog. *)
Definition single_match (groups : list SecurityGroup) (name_ : string) : Prop :=
  exists g, Select.group_matches groups name_ = [g].

(** [moved s w cs ls t]: the state [s] after the backend went to [w],
    the calls [cs] were made, the records [ls] logged and [t] seconds
    slept; the attributes of the objects are as before. *)
Definition moved {W} (s : state W) (w : W) (cs : list call)
           (ls : list log_record) (t : Z) : state W :=
  mkState w (calls s ++ cs) (logged s ++ ls) (slept s + t)
          (_images s) (_sizes s) (_networks s) (_security_groups s)
          (_node s) (ips s).

(** The record that [retry] logs after a late success. *)
Definition late_success (c : call) (tries : nat) : list log_record :=
  if (1 <? tries)%nat
  then [mkLog DEBUG "'%s' succeeded after %s tries" [ACall c; ANat tries]]
  else [].

(** [transient_failures f n w = Some w']: called [n] times in a row
    from the backend state [w], the operation raised one of the
    retried exceptions every time and left the backend in [w']. *)
Fixpoint transient_failures {W A} (f : op W A) (n : nat) (w : W) : option W :=
  match n with
  | O => Some w
  | S n' =>
      match f w with
      | (Raise e, w') =>
          if RETRY_EXCEPTIONS e then transient_failures f n' w' else None
      | (Ok _, _) => None
      end
  end.

(** [attempts vols cs]: the calls [cs] are, for every volume of [vols]
    in turn, between one and [retry_tries] invocations of
    detach_volume followed by between one and [retry_tries]
    invocations of destroy_volume, and nothing else. *)
Inductive attempts : list Volume -> list call -> Prop :=
| attempts_done : attempts [] []
| attempts_next (vol : Volume) (vols : list Volume) (k m : nat) (cs : list call) :
    (1 <= k <= retry_tries)%nat ->
    (1 <= m <= retry_tries)%nat ->
    attempts vols cs ->
    attempts (vol :: vols)
             (repeat (Call_detach_volume vol) k
              ++ repeat (Call_destroy_volume vol) m ++ cs)%list.

Definition detach_failed (vol : Volume) (e : exn) : log_record :=
  mkLog ERROR "Could not detach volume %s" [AVolume vol; AExn e].
Definition destroy_failed (vol : Volume) (e : exn) : log_record :=
  mkLog ERROR "Could not destroy volume %s" [AVolume vol; AExn e].
Definition create_failed (e : exn) : log_record :=
  mkLog ERROR "Failed to create or attach volume!" [AExn e].

Definition no_nodes_found (name_ : string) : log_record :=
  mkLog WARNING ("No nodes found with name '" ++ name_ ++ "'") [].

Definition many_nodes_error (name_ : string) : exn :=
  RuntimeError ["More than one node found with name '" ++ name_ ++ "'"].

(* ================================================================== *)
(** * A small cloud to run the provisioner on *)

Definition fresh {W} (w : W) : state W :=
  mkState w [] [] 0 None None None None None None.

Module Mock.

Record cloud := mkCloud {
  throttle : nat;             (* list_nodes is rate-limited that often *)
  nodes : list Node;
  volumes : list Volume;
  created : nat               (* create_volume calls so far *)
}.

Definition running (ns : list (option Node)) : list (Node * list string) :=
  flat_map (fun n => match n with
                     | Some x => [(x, ["10.0.0.5"])]
                     | None => []
                     end) ns.

(** [fail_create]: which call of create_volume fails (counted from 0);
    [detach_ok]: whether volumes can be detached (and, once detached,
    destroyed). *)
Definition driver (fail_create : option nat) (detach_ok : bool) : Driver cloud :=
  mkDriver
    (fun w => (Ok [mkImage 1 "Ubuntu 18.04 server"; mkImage 2 "centos-7"], w))
    (fun w => (Ok [mkSize "m1.small" 2048 20 1; mkSize "m1.large" 8192 40 2;
                   mkSize "m1.huge" 16384 80 4], w))
    (fun w => (Raise AttributeError, w))
    (fun w => (Ok [mkGroup 1 "web"; mkGroup 2 "db"], w))
    (fun w => match throttle w with
              | O => (Ok (nodes w), w)
              | S n => (Raise RateLimitReachedError,
                        mkCloud n (nodes w) (volumes w) (created w))
              end)
    (fun w => (Ok (volumes w), w))
    (fun args w =>
       let n := mkNode 7 (arg_name args) in
       (Ok n, mkCloud (throttle w) (nodes w ++ [n]) (volumes w) (created w)))
    (fun ns w => (Ok (running ns), w))
    (fun _ name_ w =>
       let w' := mkCloud (throttle w) (nodes w) (volumes w) (S (created w)) in
       if match fail_create with
          | Some k => Nat.eqb k (created w)
          | None => false
          end
       then (Raise (BackendError "quota exceeded"), w')
       else let v := mkVolume (Z.of_nat (created w)) name_ in
            (Ok v, mkCloud (throttle w) (nodes w) (volumes w ++ [v])
                           (S (created w))))
    (fun _ _ w => (Ok true, w))
    (fun _ w => if detach_ok then (Ok true, w)
                else (Raise (BackendError "volume is busy"), w))
    (fun v w =>
       if detach_ok
       then (Ok true,
             mkCloud (throttle w) (nodes w)
                     (filter (fun x => negb (Z.eqb (volume_id x) (volume_id v)))
                             (volumes w))
                     (created w))
       else (Raise (BackendError "volume is in use"), w))
    (fun n w =>
       (Ok true,
        mkCloud (throttle w)
                (filter (fun x => negb (Z.eqb (node_id x) (node_id n))) (nodes w))
                (volumes w) (created w)))
    (fun _ _ w => (Ok tt, w))
    (fun w => (Ok tt, w))
    (fun _ _ w => (Ok tt, w)).

Definition request : Conf.dict :=
  Conf.DCons "openstack"
    (Conf.Dict (Conf.DCons "volumes"
                  (Conf.Dict (Conf.DCons "count" (Conf.Num 3)
                             (Conf.DCons "size" (Conf.Num 10) Conf.DNil)))
                  Conf.DNil))
    Conf.DNil.

Definition self (fail_create : option nat) (detach_ok : bool) : Provisioner cloud :=
  OpenStackProvisioner
    (mkProvider "OpenStack" (driver fail_create detach_ok) None (Some ["web"])
                (fun _ _ => false))
    "vm07" "ubuntu" "18.04" (Some request) None "#cloud-config".

(** A cloud that already holds a volume of another node. *)
Definition start : state cloud :=
  fresh (mkCloud 0 [] [mkVolume 100 "vm070_0"] 0).

End Mock.

(* ================================================================== *)
(** * Further notions: waiting times, decimal values, first minimum *)

(** Total of [n] consecutive waits of a [safe_while] whose next wait
    is [sc] and whose increment is [inc]. *)
Fixpoint waits (sc inc : Z) (n : nat) : Z :=
  match n with
  | O => 0
  | S n' => sc + waits (sc + inc) inc n'
  end.

(** An operation that is rate-limited for ever and counts its calls,
    and one that is rate-limited [w] more times before it answers. *)
Definition always_limited : op nat bool :=
  fun w => (Raise RateLimitReachedError, S w).

Definition limited_then (answer : result bool) : op nat bool :=
  fun w => match w with
           | O => (answer, O)
           | S n => (Raise RateLimitReachedError, n)
           end.

(** The outcome ends the loop of [retry]: a result, or an exception
    that is not retried. *)
Definition final {A} (r : result A) : Prop :=
  match r with
  | Ok _ => True
  | Raise e => RETRY_EXCEPTIONS e = false
  end.

(** The pattern the [sizes] property excludes by. *)
Definition exclude_pattern {W} (p : Provider W) : string :=
  match conf_exclude_sizes p with
  | Some x => x
  | None => "win-.*"
  end.

Definition networks_warning : log_record :=
  mkLog WARNING "Unable to list networks for %s" [].

Definition security_groups_warning : log_record :=
  mkLog WARNING "Unable to list security groups for %s" [].

(** A provider whose driver has no listing of networks and of
    security groups, and whose size catalog holds Windows flavours. *)
Definition bare_driver : Driver unit :=
  mkDriver
    (fun w => (Ok [mkImage 1 "Ubuntu 18.04 server"], w))
    (fun w => (Ok [mkSize "win-large" 8192 40 2; mkSize "m1.large" 8192 40 2;
                   mkSize "m1.huge" 16384 80 4], w))
    (fun w => (Raise AttributeError, w))
    (fun w => (Raise AttributeError, w))
    (fun w => (Ok [], w))
    (fun w => (Raise (BackendError "volume service is down"), w))
    (fun args w => (Ok (mkNode 7 (arg_name args)), w))
    (fun ns w => (Ok [], w))
    (fun _ _ w => (Raise (BackendError "volume service is down"), w))
    (fun _ _ w => (Ok true, w))
    (fun _ w => (Ok true, w))
    (fun _ w => (Ok true, w))
    (fun _ w => (Raise RateLimitReachedError, w))
    (fun _ _ w => (Raise HTTPError, w))
    (fun w => (Ok tt, w))
    (fun _ _ w => (Ok tt, w)).

(** [re.match] for the one pattern used here: the name starts with
    "win-". *)
Definition starts_with_win (pattern name_ : string) : bool :=
  String.prefix "win-" name_.

Definition bare_provider (groups : option (list string)) : Provider unit :=
  mkProvider "openstack" bare_driver None groups starts_with_win.

Definition bare_self (groups : option (list string)) : Provisioner unit :=
  OpenStackProvisioner (bare_provider groups) "vm07" "ubuntu" "18.04"
                       None None "#cloud-config".

(** The better of the best size so far and a new one: the new one
    wins only with a strictly smaller key. *)
Definition pick (best : option Size) (x : Size) : option Size :=
  match best with
  | None => Some x
  | Some b =>
      if Select.key_lt (Select.size_key x) (Select.size_key b)
      then Some x else Some b
  end.

(** Reading a string of decimal digits back: the number it writes. *)
Definition digit_value (c : ascii) : nat := (nat_of_ascii c - 48)%nat.

Fixpoint decimal_value (s : string) : nat :=
  match s with
  | EmptyString => O
  | String c s' =>
      (digit_value c * 10 ^ String.length s' + decimal_value s')%nat
  end.

(** A call of the sweep on the volume [v]. *)
Definition releases (c : call) (v : Volume) : Prop :=
  c = Call_detach_volume v \/ c = Call_destroy_volume v.

Definition destroying_node (n : Node) : log_record :=
  mkLog INFO "Destroying node: %s" [ANode (Some n)].

(** [unreachable_failures f n w = Some w']: [n] connection attempts in
    a row, from the backend state [w], each failed with one of the
    errors [_wait_for_ready] waits on, and left the backend in [w']. *)
Fixpoint unreachable_failures {W A} (f : op W A) (n : nat) (w : W) : option W :=
  match n with
  | O => Some w
  | S n' =>
      match f w with
      | (Raise e, w') =>
          if not_yet_reachable e then unreachable_failures f n' w' else None
      | (Ok _, _) => None
      end
  end.

Definition sentinel_command : string :=
  "while [ ! -e '/.teuth_provisioned' ]; do sleep 5; done".

Definition node_is_ready (n : Node) : log_record :=
  mkLog INFO "Node is ready: %s" [ANode (Some n)].

(** A machine whose sshd answers only at the [w]-th further attempt,
    and one that never answers. *)
Definition booting_driver (forever : bool) : Driver nat :=
  mkDriver
    (fun w => (Ok [], w)) (fun w => (Ok [], w)) (fun w => (Ok [], w))
    (fun w => (Ok [], w)) (fun w => (Ok [], w)) (fun w => (Ok [], w))
    (fun args w => (Ok (mkNode 7 (arg_name args)), w))
    (fun ns w => (Ok [], w))
    (fun _ name_ w => (Ok (mkVolume 0 name_), w))
    (fun _ _ w => (Ok true, w))
    (fun _ w => (Ok true, w))
    (fun _ w => (Ok true, w))
    (fun _ w => (Ok true, w))
    (fun _ _ w => (Ok tt, w))
    (fun w => if forever then (Raise SocketError, S w)
              else match w with
                   | O => (Ok tt, O)
                   | S n => (Raise NoValidConnectionsError, n)
                   end)
    (fun _ _ w => (Ok tt, w)).

Definition booting_self (forever : bool) : Provisioner nat :=
  OpenStackProvisioner
    (mkProvider "openstack" (booting_driver forever) None None (fun _ _ => false))
    "vm07" "ubuntu" "18.04" None None "#cloud-config".

(** A driver with some of its operations replaced. *)
Definition patched {W} (d : Driver W)
           (wait : list (option Node) -> op W (list (Node * list string)))
           (dns : string -> string -> op W unit)
           (connect : op W unit) : Driver W :=
  mkDriver (list_images d) (list_sizes d) (ex_list_networks d)
           (ex_list_security_groups d) (list_nodes d) (list_volumes d)
           (create_node d) wait (create_volume d) (attach_volume d)
           (detach_volume d) (destroy_volume d) (destroy_node d)
           dns connect (remote_run d).

(** The provisioner of the small cloud, on a driver of one's choice. *)
Definition provisioner_on (d : Driver Mock.cloud) : Provisioner Mock.cloud :=
  OpenStackProvisioner
    (mkProvider "OpenStack" d None (Some ["web"]) (fun _ _ => false))
    "vm07" "ubuntu" "18.04" (Some Mock.request) None "#cloud-config".

Definition dns_down : Driver Mock.cloud :=
  patched (Mock.driver None true)
          (wait_until_running (Mock.driver None true))
          (fun _ _ w => (Raise HTTPError, w))
          (remote_connect (Mock.driver None true)).

Definition no_address : Driver Mock.cloud :=
  patched (Mock.driver None true)
          (fun ns w => (Ok [(mkNode 7 "vm07", [])], w))
          (nsupdate (Mock.driver None true))
          (remote_connect (Mock.driver None true)).

Definition no_route : Driver unit :=
  patched bare_driver (wait_until_running bare_driver) (nsupdate bare_driver)
          (fun w => (Raise (BackendError "no route"), w)).

(** The keyword arguments [_create] builds for create_node. *)
Definition request_for {W} (self : Provisioner W) (sz : Size) (im : Image)
           (nets : list Network) (sgs : option (list SecurityGroup))
  : create_args :=
  mkCreateArgs (name self) sz im (userdata self)
               (if nonempty nets then Some nets else None)
               (match sgs with
                | Some (g :: gs) => Some (g :: gs)
                | _ => None
                end).

(** The small cloud with the four catalogs already fetched (no
    network, two security groups). *)
Definition catalogued : state Mock.cloud :=
  with_images [mkImage 1 "Ubuntu 18.04 server"; mkImage 2 "centos-7"]
    (with_sizes [mkSize "m1.small" 2048 20 1; mkSize "m1.large" 8192 40 2]
       (with_networks []
          (with_security_groups [mkGroup 1 "web"; mkGroup 2 "db"] Mock.start))).

(** The driver of the small cloud with a destroy_node that is
    rate-limited, and a bare driver whose image listing is refused. *)
Definition limited_destroy : Driver Mock.cloud :=
  let d := Mock.driver None true in
  mkDriver (list_images d) (list_sizes d) (ex_list_networks d)
           (ex_list_security_groups d) (list_nodes d) (list_volumes d)
           (create_node d) (wait_until_running d) (create_volume d)
           (attach_volume d) (detach_volume d) (destroy_volume d)
           (fun _ w => (Raise RateLimitReachedError, w))
           (nsupdate d) (remote_connect d) (remote_run d).

Definition images_refused : Driver unit :=
  let d := bare_driver in
  mkDriver (fun w => (Raise (BackendError "forbidden"), w))
           (list_sizes d) (ex_list_networks d)
           (ex_list_security_groups d) (list_nodes d) (list_volumes d)
           (create_node d) (wait_until_running d) (create_volume d)
           (attach_volume d) (detach_volume d) (destroy_volume d)
           (destroy_node d) (nsupdate d) (remote_connect d) (remote_run d).

(** The small cloud whose second create_volume fails and whose volume
    listing is refused, and the small cloud that refuses to create a
    node. *)
Definition listing_down : Driver Mock.cloud :=
  let d := Mock.driver (Some 1%nat) true in
  mkDriver (list_images d) (list_sizes d) (ex_list_networks d)
           (ex_list_security_groups d) (list_nodes d)
           (fun w => (Raise (BackendError "volume service is down"), w))
           (create_node d) (wait_until_running d) (create_volume d)
           (attach_volume d) (detach_volume d) (destroy_volume d)
           (destroy_node d) (nsupdate d) (remote_connect d) (remote_run d).

Definition create_refused : Driver Mock.cloud :=
  let d := Mock.driver None true in
  mkDriver (list_images d) (list_sizes d) (ex_list_networks d)
           (ex_list_security_groups d) (list_nodes d) (list_volumes d)
           (fun _ w => (Raise (BackendError "no capacity"), w))
           (wait_until_running d) (create_volume d)
           (attach_volume d) (detach_volume d) (destroy_volume d)
           (destroy_node d) (nsupdate d) (remote_connect d) (remote_run d).

(** The three records [_create] logs before it builds the request. *)
Definition selection_logged {W} (self : Provisioner W) (sz : Size) (im : Image)
  : list log_record :=
  [mkLog DEBUG "Creating node: %s" [AStr (name self)];
   mkLog DEBUG "Selected size: %s" [ASize sz];
   mkLog DEBUG "Selected image: %s" [AImage im]].

(* ================================================================== *)
(** * Properties of the selectors *)

Section StringFacts.

Lemma prefix_app (p r : string) : String.prefix p (p ++ r) = true.
Proof.
  induction p as [|c p IH]; simpl.
  - now destruct r.
  - destruct (ascii_dec c c) as [_|ne]; [exact IH | now elim ne].
Qed.

Lemma app_assoc_str (a b c : string) : (a ++ b) ++ c = a ++ (b ++ c).
Proof. induction a as [|x a IH]; simpl; [reflexivity | now rewrite IH]. Qed.

Lemma lower_app (a b : string) :
  PyStr.lower (a ++ b) = PyStr.lower a ++ PyStr.lower b.
Proof. induction a as [|x a IH]; simpl; [reflexivity | now rewrite IH]. Qed.

Lemma length_app_str (a b : string) :
  String.length (a ++ b) = (String.length a + String.length b)%nat.
Proof. induction a as [|x a IH]; simpl; [reflexivity | now rewrite IH]. Qed.

Lemma length_zeros (k : nat) : String.length (PyStr.zeros k) = k.
Proof. induction k; simpl; congruence. Qed.

End StringFacts.

Section ImageFacts.

Variables (images : list Image) (os_type os_version : string).

Lemma image_unfolded :
  Select.image images os_type os_version =
  match Select.image_matches (os_type ++ " " ++ os_version) images with
  | first :: _ => Ok first
  | [] =>
      match Select.image_matches (os_type ++ "-" ++ os_version) images with
      | first :: _ => Ok first
      | [] => Raise (Select.image_error os_type os_version)
      end
  end.
Proof.
  unfold Select.image, Select.os_specs. cbn [Select.image_loop].
  destruct (Select.image_matches (os_type ++ " " ++ os_version) images)
    as [|i1 m1]; cbn [nonempty]; [|reflexivity].
  now destruct (Select.image_matches (os_type ++ "-" ++ os_version) images).
Qed.

Lemma lowercase_request_matches (sep : string) :
  PyStr.lower os_type = os_type ->
  PyStr.lower os_version = os_version ->
  PyStr.lower sep = sep ->
  Claimed.image_matches (os_type ++ sep ++ os_version) images
  = Select.image_matches (os_type ++ sep ++ os_version) images.
Proof.
  intros Ht Hv Hs.
  unfold Claimed.image_matches, Select.image_matches, Claimed.contains_nocase.
  now rewrite !lower_app, Ht, Hv, Hs.
Qed.

End ImageFacts.

(** C4 (as written) fails: a request spelled with a capital letter is
    not matched, although a comparison without regard to case would
    find the image. *)
Lemma image_request_case_matters :
  let images := [mkImage 1 "Ubuntu 18.04 server"; mkImage 2 "centos-7"] in
  Claimed.image images "Ubuntu" "18.04" = Ok (mkImage 1 "Ubuntu 18.04 server")
  /\ Select.image images "Ubuntu" "18.04"
     = Raise (Select.image_error "Ubuntu" "18.04")
  /\ Select.image images "Ubuntu" "18.04" <> Claimed.image images "Ubuntu" "18.04".
Proof. repeat split; try reflexivity. discriminate. Qed.

(** C4 (amended): the template filled in with the requested type and
    version, taken as they are, is looked for inside the lower-cased
    name of every catalog image, first with a blank and then with a
    dash between type and version; the first image of the first
    non-empty match list is returned, and with no match at all the
    error carries type and version.  For a request without capital
    letters this is the selection without regard to case. *)
Theorem image_selection :
  forall (images : list Image) (os_type os_version : string),
    Select.image images os_type os_version =
      match filter (fun i => PyStr.contains (os_type ++ " " ++ os_version)
                                            (PyStr.lower (image_name i))) images with
      | first :: _ => Ok first
      | [] =>
          match filter (fun i => PyStr.contains (os_type ++ "-" ++ os_version)
                                                (PyStr.lower (image_name i))) images with
          | first :: _ => Ok first
          | [] => Raise (RuntimeError ["Could not find an image for %s %s";
                                       os_type; os_version])
          end
      end
    /\ (PyStr.lower os_type = os_type ->
        PyStr.lower os_version = os_version ->
        Select.image images os_type os_version
        = Claimed.image images os_type os_version).
Proof.
  intros images os_type os_version. split.
  - apply image_unfolded.
  - intros Ht Hv. rewrite image_unfolded. unfold Claimed.image.
    now rewrite !lowercase_request_matches.
Qed.

Lemma image_selection_witness :
  PyStr.lower "centos" = "centos" /\ PyStr.lower "7" = "7"
  /\ Select.image [mkImage 1 "Ubuntu 18.04 server"; mkImage 2 "centos-7"]
                  "centos" "7"
     = Claimed.image [mkImage 1 "Ubuntu 18.04 server"; mkImage 2 "centos-7"]
                     "centos" "7".
Proof.
  split; [reflexivity | split; [reflexivity |]].
  apply (image_selection
           [mkImage 1 "Ubuntu 18.04 server"; mkImage 2 "centos-7"] "centos" "7");
    reflexivity.
Defined.

Section SizeFacts.

#[local] Arguments Select.key_lt : simpl never.

Lemma key_lt_lex (a b : Size) :
  Select.key_lt (Select.size_key a) (Select.size_key b) = true <-> ~ lex_le b a.
Proof.
  unfold Select.key_lt, Select.size_key, lex_le.
  rewrite !orb_true_iff, !andb_true_iff, !orb_true_iff, !andb_true_iff,
    !Z.ltb_lt, !Z.eqb_eq.
  lia.
Qed.

Lemma lex_le_trans (a b c : Size) : lex_le a b -> lex_le b c -> lex_le a c.
Proof. unfold lex_le. lia. Qed.

Lemma lex_le_total (a b : Size) : lex_le a b \/ lex_le b a.
Proof. unfold lex_le. lia. Qed.

Lemma good_size_adequate (r d c : Z) (s : Size) :
  Select.good_size r d c s = true <-> adequate r d c s.
Proof.
  unfold Select.good_size, adequate.
  destruct (ram s <? r) eqn:E1; destruct (disk s <? d) eqn:E2;
    destruct (vcpus s <? c) eqn:E3; simpl;
    rewrite ?Z.ltb_lt, ?Z.ltb_ge in *; split; intros; try discriminate; lia.
Qed.

Lemma insert_by_In (x z : Size) (l : list Size) :
  In z (Select.insert_by Select.size_key x l) <-> z = x \/ In z l.
Proof.
  induction l as [|y l IH]; simpl.
  - split; intros [H|H]; auto.
  - destruct (Select.key_lt (Select.size_key x) (Select.size_key y)); simpl.
    + split; intros [H|H]; auto.
    + rewrite IH. split.
      * intros [H|[H|H]]; auto.
      * intros [H|[H|H]]; auto.
Qed.

Lemma key_lt_false (a b : Size) :
  Select.key_lt (Select.size_key a) (Select.size_key b) = false -> lex_le b a.
Proof.
  intros E. rewrite <- not_true_iff_false, key_lt_lex in E.
  unfold lex_le in *. lia.
Qed.

Lemma key_lt_true (a b : Size) :
  Select.key_lt (Select.size_key a) (Select.size_key b) = true -> lex_le a b.
Proof.
  intros E. rewrite key_lt_lex in E. unfold lex_le in *. lia.
Qed.

Lemma insert_by_head_least (x : Size) (l : list Size) :
  head_least l -> head_least (Select.insert_by Select.size_key x l).
Proof.
  destruct l as [|y l]; simpl; [now intros _ z []|].
  intros Hy.
  destruct (Select.key_lt (Select.size_key x) (Select.size_key y)) eqn:E.
  - apply key_lt_true in E.
    intros z [<-|Hz]; [exact E|].
    eapply lex_le_trans; [exact E | now apply Hy].
  - apply key_lt_false in E.
    intros z Hz. apply insert_by_In in Hz. destruct Hz as [->|Hz].
    + exact E.
    + now apply Hy.
Qed.

Lemma sorted_from (l acc : list Size) :
  head_least acc ->
  let r := fold_left (fun a x => Select.insert_by Select.size_key x a) l acc in
  head_least r /\ (forall z, In z r <-> In z acc \/ In z l).
Proof.
  revert acc. induction l as [|x l IH]; intros acc Hacc; simpl.
  - split; [exact Hacc | intuition].
  - destruct (IH _ (insert_by_head_least x acc Hacc)) as [H1 H2].
    split; [exact H1|].
    intros z. rewrite H2, insert_by_In. simpl. split.
    + intros [[H|H]|H]; auto.
    + intros [H|[H|H]]; auto.
Qed.

Lemma sorted_head (l : list Size) :
  match Select.sorted l Select.size_key with
  | [] => l = []
  | h :: _ => In h l /\ forall z, In z l -> lex_le h z
  end.
Proof.
  unfold Select.sorted.
  destruct (sorted_from l [] I) as [H1 H2].
  destruct (fold_left _ l []) as [|h t].
  - destruct l as [|x l]; [reflexivity|].
    exfalso. apply (proj2 (H2 x)). right. now left.
  - split.
    + destruct (proj1 (H2 h) (or_introl eq_refl)) as [[]|H]; exact H.
    + intros z Hz.
      destruct (proj2 (H2 z) (or_intror Hz)) as [<-|Hin].
      * unfold lex_le. lia.
      * now apply H1.
Qed.

End SizeFacts.

Section ConfiguredSizes.

Context {W : Type} (self : Provisioner W).

(** With the catalog already fetched, the [size] property is the pure
    selection and leaves the state as it was. *)
Lemma size_on_cached_catalog (s : state W) (all_sizes : list Size)
      (machine : Conf.value) (r d c : Z) :
  _sizes s = Some all_sizes ->
  Conf.item (conf self) "machine" = Ok machine ->
  Conf.item machine "ram" = Ok (Conf.Num r) ->
  Conf.item machine "disk" = Ok (Conf.Num d) ->
  Conf.item machine "cpus" = Ok (Conf.Num c) ->
  size self s = (Select.size all_sizes r d c, s).
Proof.
  intros Hs Hm Hr Hd Hc.
  unfold size, item, as_int, sizes.
  cbv beta iota delta [bind lift get ret].
  rewrite Hm; cbv beta iota. rewrite Hr; cbv beta iota.
  rewrite Hd; cbv beta iota. rewrite Hc; cbv beta iota.
  now rewrite Hs.
Qed.

End ConfiguredSizes.

(** C5: the size selector keeps the catalog entries with enough RAM,
    disk and vcpus and returns one of them whose (ram, disk, vcpus)
    is lexicographically least; when none is left it raises
    IndexError, which is not among the retried exceptions, and the
    property raises it without touching the backend again. *)
Theorem size_selection :
  forall (all_sizes : list Size) (ram_ disk_ cpu : Z),
    match Select.size all_sizes ram_ disk_ cpu with
    | Ok s =>
        In s all_sizes /\ adequate ram_ disk_ cpu s
        /\ (forall s', In s' all_sizes -> adequate ram_ disk_ cpu s' -> lex_le s s')
    | Raise e =>
        e = IndexError /\ RETRY_EXCEPTIONS e = false
        /\ (forall s', In s' all_sizes -> ~ adequate ram_ disk_ cpu s')
    end
    /\ (forall W (self : Provisioner W) (s : state W) machine,
          _sizes s = Some all_sizes ->
          Conf.item (conf self) "machine" = Ok machine ->
          Conf.item machine "ram" = Ok (Conf.Num ram_) ->
          Conf.item machine "disk" = Ok (Conf.Num disk_) ->
          Conf.item machine "cpus" = Ok (Conf.Num cpu) ->
          (forall s', In s' all_sizes -> ~ adequate ram_ disk_ cpu s') ->
          size self s = (Raise IndexError, s)).
Proof.
  intros all_sizes r d c.
  assert (Hpure :
    match Select.size all_sizes r d c with
    | Ok s =>
        In s all_sizes /\ adequate r d c s
        /\ (forall s', In s' all_sizes -> adequate r d c s' -> lex_le s s')
    | Raise e =>
        e = IndexError /\ RETRY_EXCEPTIONS e = false
        /\ (forall s', In s' all_sizes -> ~ adequate r d c s')
    end).
  { unfold Select.size.
    pose proof (sorted_head (filter (Select.good_size r d c) all_sizes)) as H.
    destruct (Select.sorted _ _) as [|h t].
    - split; [reflexivity | split; [reflexivity|]].
      intros s' Hin Had.
      apply good_size_adequate in Had.
      assert (Hf : In s' (filter (Select.good_size r d c) all_sizes))
        by (apply filter_In; now split).
      rewrite H in Hf. exact Hf.
    - destruct H as [Hin Hmin]. apply filter_In in Hin as [Hin Hgood].
      split; [exact Hin | split; [now apply good_size_adequate|]].
      intros s' Hs' Had. apply Hmin, filter_In. split; [exact Hs'|].
      now apply good_size_adequate. }
  split; [exact Hpure|].
  intros W self s machine Hs Hm Hr Hd Hc Hnone.
  rewrite (size_on_cached_catalog self s Hs Hm Hr Hd Hc).
  destruct (Select.size all_sizes r d c) as [x|e].
  - destruct Hpure as (Hin & Had & _). now elim (Hnone x Hin).
  - destruct Hpure as (-> & _). reflexivity.
Qed.

Section GroupFacts.

Variable groups : list SecurityGroup.

Lemma groups_loop_all_single (names : list string) :
  forall acc,
    (forall n, In n names -> single_match groups n) ->
    Select.groups_loop groups names acc
    = Ok (acc ++ flat_map (Select.group_matches groups) names)%list.
Proof.
  induction names as [|n names IH]; intros acc Hall; simpl.
  - now rewrite app_nil_r.
  - destruct (Hall n (or_introl eq_refl)) as [g Hg]. rewrite Hg.
    rewrite IH by (intros m Hm; apply Hall; now right).
    now rewrite <- app_assoc.
Qed.

Lemma groups_loop_first_bad (pre : list string) :
  forall acc n post,
    (forall m, In m pre -> single_match groups m) ->
    Select.groups_loop groups (pre ++ n :: post) acc
    = match Select.group_matches groups n with
      | [] => Raise (Select.no_group_error n)
      | [g] => Select.groups_loop groups post
                 (acc ++ flat_map (Select.group_matches groups) pre ++ [g])%list
      | _ :: _ :: _ => Raise (Select.many_groups_error n)
      end.
Proof.
  induction pre as [|m pre IH]; intros acc n post Hall; simpl.
  - destruct (Select.group_matches groups n) as [|g [|g' l]]; reflexivity.
  - destruct (Hall m (or_introl eq_refl)) as [g Hg]. rewrite Hg.
    rewrite IH by (intros k Hk; apply Hall; now right).
    destruct (Select.group_matches groups n) as [|g0 [|g1 l]]; try reflexivity.
    simpl. now rewrite <- !app_assoc.
Qed.

End GroupFacts.

(** C6: with no names configured the resolution gives None (and asks
    the provider for nothing), which is not the empty list that an
    empty list of names gives.  With names configured, every name that
    has exactly one group of that very name contributes it, in the
    order of the names; the first name with no such group raises the
    "no security groups found" error and the first name with several
    raises the "more than one" error. *)
Theorem security_group_resolution :
  forall (groups : list SecurityGroup),
    Select.security_groups None groups = Ok None
    /\ Select.security_groups (Some []) groups = Ok (Some [])
    /\ (forall W (self : Provisioner W) (s : state W),
          conf_security_groups (provider self) = None ->
          security_groups self s = (Ok None, s))
    /\ (forall names,
          (forall n, In n names ->
                     exists g, filter (fun group => String.eqb (group_name group) n)
                                      groups = [g]) ->
          Select.security_groups (Some names) groups
          = Ok (Some (flat_map
                        (fun n => filter (fun group => String.eqb (group_name group) n)
                                         groups) names)))
    /\ (forall pre n post,
          (forall m, In m pre -> single_match groups m) ->
          Select.group_matches groups n = [] ->
          Select.security_groups (Some (pre ++ n :: post)%list) groups
          = Raise (RuntimeError ["No security groups found with name '" ++ n ++ "'"]))
    /\ (forall pre n post g1 g2 more,
          (forall m, In m pre -> single_match groups m) ->
          Select.group_matches groups n = g1 :: g2 :: more ->
          Select.security_groups (Some (pre ++ n :: post)%list) groups
          = Raise (RuntimeError
                     ["More than one security group found with name '" ++ n ++ "'"])).
Proof.
  intros groups. repeat split.
  - intros W self s Hnone. unfold security_groups. now rewrite Hnone.
  - intros names Hall. unfold Select.security_groups.
    now rewrite groups_loop_all_single.
  - intros pre n post Hpre Hn. unfold Select.security_groups.
    now rewrite groups_loop_first_bad, Hn.
  - intros pre n post g1 g2 more Hpre Hn. unfold Select.security_groups.
    now rewrite groups_loop_first_bad, Hn.
Qed.

(* ================================================================== *)
(** * Volume names *)

Section DecimalFacts.

Lemma digits_length_ge (fuel : nat) :
  forall n acc, (String.length acc <= String.length (PyStr.digits fuel n acc))%nat.
Proof.
  induction fuel as [|fuel IH]; intros n acc; simpl; [lia|].
  destruct (n <? 10)%nat; simpl; [lia|].
  specialize (IH (n / 10)%nat (String (PyStr.digit n) acc)). simpl in IH. lia.
Qed.

Lemma digits_length_mono (f1 : nat) :
  forall f2 n m a1 a2,
    (n <= m)%nat -> (n < f1)%nat -> (m < f2)%nat ->
    String.length a1 = String.length a2 ->
    (String.length (PyStr.digits f1 n a1)
     <= String.length (PyStr.digits f2 m a2))%nat.
Proof.
  induction f1 as [|f1 IH]; intros f2 n m a1 a2 Hnm Hn Hm Ha; [lia|].
  destruct f2 as [|f2]; [lia|]. cbn [PyStr.digits].
  destruct (Nat.ltb_spec n 10) as [Hn10|Hn10];
    destruct (Nat.ltb_spec m 10) as [Hm10|Hm10]; cbn [String.length].
  - lia.
  - pose proof (digits_length_ge f2 (m / 10) (String (PyStr.digit m) a2)) as H.
    cbn [String.length] in H. lia.
  - lia.
  - apply IH.
    + apply Nat.Div0.div_le_mono. exact Hnm.
    + assert (n / 10 < n)%nat by (apply Nat.div_lt; lia). lia.
    + assert (m / 10 < m)%nat by (apply Nat.div_lt; lia). lia.
    + cbn [String.length]. congruence.
Qed.

Lemma str_nat_length_mono (n m : nat) :
  (n <= m)%nat ->
  (String.length (PyStr.str_nat n) <= String.length (PyStr.str_nat m))%nat.
Proof.
  intros H. unfold PyStr.str_nat. apply digits_length_mono; auto; lia.
Qed.

Lemma str_nonneg (z : Z) : 0 <= z -> PyStr.str z = PyStr.str_nat (Z.to_nat z).
Proof.
  intros H. unfold PyStr.str.
  destruct (Z.ltb_spec z 0); [lia | reflexivity].
Qed.

Lemma fmt_0d_nonneg (w : nat) (z : Z) :
  0 <= z ->
  PyStr.fmt_0d w z = PyStr.zeros (w - String.length (PyStr.str z)) ++ PyStr.str z.
Proof.
  intros H. rewrite str_nonneg by exact H. unfold PyStr.fmt_0d.
  destruct (Z.ltb_spec z 0); [lia | reflexivity].
Qed.

Lemma in_range (n i : Z) : In i (range n) <-> 0 <= i < n.
Proof.
  unfold range. rewrite in_map_iff. split.
  - intros (k & <- & Hk). apply in_seq in Hk. lia.
  - intros H. exists (Z.to_nat i). split; [lia|]. apply in_seq. lia.
Qed.

End DecimalFacts.

(** C10: the names that [_create_volumes] generates are the node name,
    an underscore and the index padded with zeros to the width of the
    last index; every volume that carries one of these names and is
    listed by the backend is kept by the prefix filter of the cleanup
    sweep. *)
Theorem volume_names_are_owned :
  forall W (self : Provisioner W) (vol_count : Z),
    let width := String.length (PyStr.str (vol_count - 1)) in
    vol_names self vol_count
    = map (fun i => name self ++ "_"
                    ++ PyStr.zeros (width - String.length (PyStr.str i))
                    ++ PyStr.str i)
          (map Z.of_nat (seq 0 (Z.to_nat vol_count)))
    /\ (forall i, 0 <= i < vol_count ->
                  String.length (PyStr.zeros (width - String.length (PyStr.str i))
                                 ++ PyStr.str i) = width)
    /\ (forall all_volumes vol,
          In vol all_volumes ->
          In (volume_name vol) (vol_names self vol_count) ->
          In vol (our_volumes self all_volumes)).
Proof.
  intros W self vol_count width.
  assert (Hnames :
    vol_names self vol_count
    = map (fun i => name self ++ "_"
                    ++ PyStr.zeros (width - String.length (PyStr.str i))
                    ++ PyStr.str i) (range vol_count)).
  { unfold vol_names. apply map_ext_in. intros i Hi.
    apply in_range in Hi. now rewrite fmt_0d_nonneg by lia. }
  split; [exact Hnames | split].
  - intros i Hi. rewrite length_app_str, length_zeros.
    assert (String.length (PyStr.str i) <= width)%nat; [|lia].
    unfold width. rewrite !str_nonneg by lia.
    apply str_nat_length_mono. lia.
  - intros all_volumes vol Hin Hname.
    unfold our_volumes. apply filter_In. split; [exact Hin|].
    rewrite Hnames in Hname. apply in_map_iff in Hname.
    destruct Hname as (i & Hi & _). rewrite <- Hi.
    unfold PyStr.startswith. rewrite <- app_assoc_str. apply prefix_app.
Qed.

Lemma volume_names_are_owned_witness :
  let self := Mock.self None true in
  vol_names self 12
  = ["vm07_00"; "vm07_01"; "vm07_02"; "vm07_03"; "vm07_04"; "vm07_05";
     "vm07_06"; "vm07_07"; "vm07_08"; "vm07_09"; "vm07_10"; "vm07_11"]
  /\ In (mkVolume 5 "vm07_03")
        (our_volumes self [mkVolume 4 "vm070"; mkVolume 5 "vm07_03"]).
Proof.
  intros self. split; [reflexivity|].
  apply (volume_names_are_owned self 12); [right; now left|].
  cbv. tauto.
Defined.

(* ================================================================== *)
(** * Configuration merge *)

Section MergeFacts.

Import Conf.

Lemma get_set_same (k : string) (v : value) (d : dict) :
  get k (set k v d) = Some v.
Proof.
  induction d as [|k0 v0 rest IH]; simpl.
  - now rewrite String.eqb_refl.
  - destruct (String.eqb k0 k) eqn:E; simpl; rewrite E; [reflexivity | exact IH].
Qed.

Lemma get_set_other (k k' : string) (v : value) (d : dict) :
  String.eqb k' k = false -> get k (set k' v d) = get k d.
Proof.
  intros Hne. induction d as [|k0 v0 rest IH]; simpl.
  - now rewrite Hne.
  - destruct (String.eqb k0 k') eqn:E; simpl.
    + apply String.eqb_eq in E. subst k0. now rewrite Hne.
    + now rewrite IH.
Qed.

Lemma has_key_get (k : string) (d : dict) :
  has_key k d = false -> get k d = None.
Proof.
  induction d as [|k0 v0 rest IH]; simpl; [reflexivity|].
  intros H. apply orb_false_iff in H as [H1 H2]. rewrite H1. now apply IH.
Qed.

Lemma wf_get (k : string) (v : value) (d : dict) :
  wf_dict d = true -> get k d = Some v -> wf v = true.
Proof.
  induction d as [|k0 v0 rest IH]; simpl; [discriminate|].
  intros Hwf Hget. apply andb_true_iff in Hwf as [Hwf Hrest].
  apply andb_true_iff in Hwf as [_ Hv0].
  destruct (String.eqb k0 k); [congruence | now apply IH].
Qed.

(** What one key holds after [selective_update]. *)
Lemma get_selective_update (func : Z -> Z -> bool) (k : string) (b : dict) :
  forall a,
    wf_dict b = true ->
    get k (selective_update func a b)
    = match get k b with
      | None => get k a
      | Some v => Some (match get k a with
                        | None => v
                        | Some stored => merge func stored v
                        end)
      end.
Proof.
  induction b as [|k0 v0 rest IH]; intros a Hwf; [reflexivity|].
  cbn [wf_dict] in Hwf. apply andb_true_iff in Hwf as [Hwf Hrest].
  apply andb_true_iff in Hwf as [Hk0 _]. apply negb_true_iff in Hk0.
  cbn [selective_update get]. rewrite IH by exact Hrest.
  destruct (String.eqb k0 k) eqn:E.
  - apply String.eqb_eq in E. subst k0.
    rewrite (has_key_get _ _ Hk0).
    destruct (get k a); now rewrite get_set_same.
  - destruct (get k0 a); now rewrite get_set_other by exact E.
Qed.

Lemma look_merge (path : list string) :
  forall old new,
    wf new = true ->
    look path old <> Other -> look path new <> Other ->
    look path (merge greater old new) = join (look path old) (look path new).
Proof.
  induction path as [|k path IH]; intros old new Hwf Hold Hnew.
  - destruct old; try (now elim Hold); destruct new; try (now elim Hnew).
    cbn [merge look join]. unfold greater. rewrite Z.gtb_ltb.
    destruct (Z.ltb_spec z z0); cbn [look]; f_equal; lia.
  - destruct old as [| | |a]; try (now elim Hold).
    destruct new as [| | |b]; try (now elim Hnew).
    cbn [merge look] in *. rewrite get_selective_update by exact Hwf.
    destruct (get k b) as [v|] eqn:Eb.
    + destruct (get k a) as [stored|] eqn:Ea.
      * apply IH; try assumption. cbn [wf] in Hwf. eapply wf_get; eassumption.
      * reflexivity.
    + now destruct (get k a) as [stored|]; [destruct (look path stored)|].
Qed.

Lemma join_not_other (x y : at_path) : x <> Other -> y <> Other -> join x y <> Other.
Proof. destruct x, y; simpl; congruence. Qed.

Lemma combined_value (path : list string) (confs : list value) :
  forall acc,
    forallb (usable path) confs = true ->
    look path acc <> Other ->
    let merged := fold_left (merge greater) confs acc in
    let vals := (own_values (look path acc) ++ defined_values path confs)%list in
    match vals with
    | [] => look path merged = Absent
    | _ :: _ => exists m, look path merged = IsNum m /\ In m vals
                          /\ forall v, In v vals -> v <= m
    end.
Proof.
  induction confs as [|c confs IH]; intros acc Hok Hacc; cbn zeta.
  - simpl. destruct (look path acc) as [|z|] eqn:E; simpl.
    + reflexivity.
    + exists z. split; [reflexivity | split; [now left|]].
      intros v [<-|[]]. lia.
    + now elim Hacc.
  - cbn [forallb] in Hok. apply andb_true_iff in Hok as [Hc Hok].
    unfold usable in Hc. apply andb_true_iff in Hc as [Hwf Hc].
    assert (Hc' : look path c <> Other) by (intro E; rewrite E in Hc; discriminate).
    assert (Hj := look_merge path acc c Hwf Hacc Hc').
    specialize (IH (merge greater acc c) Hok).
    rewrite Hj in IH. specialize (IH (join_not_other Hacc Hc')). cbn zeta in IH.
    cbn [fold_left]. unfold defined_values in *. cbn [flat_map].
    fold (own_values (look path c)).
    destruct (look path acc) as [|y|]; [| |now elim Hacc];
      destruct (look path c) as [|z|]; try (now elim Hc');
      cbn [join own_values app] in *; try exact IH.
    destruct IH as (m & Hm & Hin & Hmax). exists m. split; [exact Hm|]. split.
    + destruct Hin as [Hin|Hin]; [|now right; right].
      destruct (Z.max_spec y z) as [[_ E]|[_ E]]; rewrite E in Hin;
        [right; now left | now left].
    + intros v [<-|[<-|Hv]].
      * specialize (Hmax (Z.max y z) (or_introl eq_refl)). lia.
      * specialize (Hmax (Z.max y z) (or_introl eq_refl)). lia.
      * apply Hmax. now right.
Qed.

End MergeFacts.

(** C2: for a key path that every source either leaves out or defines
    as a number (the mappings having unique keys), the configuration
    stored by [_read_conf] holds at that path the greatest of the
    numbers the sources define there; a path no source defines stays
    undefined.  The function is total: an absent explicit or global
    configuration is an empty mapping that defines nothing. *)
Theorem read_conf_takes_maximum :
  forall (driver_name : string) (conf : option Conf.dict)
         (legacy : option Conf.value) (key : string) (path : list string),
    let confs :=
      Conf.flatten (Conf.sources (PyStr.lower driver_name) conf legacy) [] in
    let merged := Conf._read_conf driver_name conf legacy in
    forallb (fun c => Conf.wf c
                      && match Conf.look (key :: path) c with
                         | Conf.Other => false
                         | _ => true
                         end) confs = true ->
    match Conf.defined_values (key :: path) confs with
    | [] => Conf.look (key :: path) merged = Conf.Absent
    | z :: zs =>
        exists m, Conf.look (key :: path) merged = Conf.IsNum m
                  /\ In m (z :: zs)
                  /\ forall v, In v (z :: zs) -> v <= m
    end.
Proof.
  intros driver_name conf legacy key path confs merged Hok.
  assert (H0 : Conf.look (key :: path) (Conf.Dict Conf.DNil) <> Conf.Other)
    by discriminate.
  pose proof (combined_value (key :: path) confs (Conf.Dict Conf.DNil) Hok H0)
    as H.
  cbn zeta in H.
  change (Conf.own_values (Conf.look (key :: path) (Conf.Dict Conf.DNil)))
    with (@nil Z) in H.
  cbn [app] in H.
  destruct (Conf.defined_values (key :: path) confs); exact H.
Qed.

Lemma read_conf_takes_maximum_witness :
  let conf := Conf.DCons "openstack"
                (Conf.Dict (Conf.DCons "machine"
                   (Conf.Dict (Conf.DCons "disk" (Conf.Num 40)
                              (Conf.DCons "ram" (Conf.Num 4000) Conf.DNil)))
                   Conf.DNil))
                Conf.DNil in
  let legacy := Conf.Dict (Conf.DCons "machine"
                   (Conf.Dict (Conf.DCons "ram" (Conf.Num 16000) Conf.DNil))
                   Conf.DNil) in
  Conf.defined_values ["machine"; "ram"]
    (Conf.flatten (Conf.sources "openstack" (Some conf) (Some legacy)) [])
  = [4000; 16000; 8000]
  /\ exists m,
      Conf.look ["machine"; "ram"]
                (Conf._read_conf "OpenStack" (Some conf) (Some legacy))
      = Conf.IsNum m
      /\ In m [4000; 16000; 8000]
      /\ forall v, In v [4000; 16000; 8000] -> v <= m.
Proof.
  intros conf legacy. split; [reflexivity|].
  exact (read_conf_takes_maximum "OpenStack" (Some conf) (Some legacy)
           "machine" ["ram"] eq_refl).
Defined.

(* ================================================================== *)
(** * Running the provisioner: frames *)

Section Frames.

Context {W : Type}.

Lemma moved_nothing (s : state W) : moved s (backend s) [] [] 0 = s.
Proof.
  destruct s; unfold moved; simpl. rewrite !app_nil_r, Z.add_0_r. reflexivity.
Qed.

Lemma moved_moved (s : state W) w1 cs1 ls1 t1 w2 cs2 ls2 t2 :
  moved (moved s w1 cs1 ls1 t1) w2 cs2 ls2 t2
  = moved s w2 (cs1 ++ cs2) (ls1 ++ ls2) (t1 + t2).
Proof.
  unfold moved; simpl. rewrite !app_assoc, Z.add_assoc. reflexivity.
Qed.

Lemma invoke_run {A} (c : call) (f : op W A) (s : state W) :
  invoke c f s = (fst (f (backend s)), moved s (snd (f (backend s))) [c] [] 0).
Proof.
  unfold invoke, moved, with_backend. destruct (f (backend s)) as [r w]; simpl.
  rewrite app_nil_r, Z.add_0_r. reflexivity.
Qed.

Lemma log_run lv m args (s : state W) :
  log lv m args s = (Ok tt, moved s (backend s) [] [mkLog lv m args] 0).
Proof.
  unfold log, modify, moved, with_logged. rewrite app_nil_r, Z.add_0_r.
  reflexivity.
Qed.

Lemma sleep_run t (s : state W) :
  sleep t s = (Ok tt, moved s (backend s) [] [] t).
Proof.
  unfold sleep, modify, moved, with_slept. rewrite !app_nil_r. reflexivity.
Qed.

Lemma bind_run {A B} (m : M W A) (k : A -> M W B) (s : state W) :
  bind m k s = match m s with
               | (Ok a, s') => k a s'
               | (Raise e, s') => (Raise e, s')
               end.
Proof. reflexivity. Qed.

Lemma proceed_pass (sw : safe_while) (s : state W) :
  (counter sw < sw_tries sw)%nat ->
  exists sw' t,
    proceed sw s = (Ok sw', moved s (backend s) [] [] t)
    /\ counter sw' = S (counter sw) /\ sw_tries sw' = sw_tries sw.
Proof.
  intros Hlt. unfold proceed.
  destruct (Nat.eqb_spec (S (counter sw)) 1) as [E|E].
  - eexists _, 0. rewrite moved_nothing. unfold ret. repeat split.
  - destruct (Nat.ltb_spec (sw_tries sw) (S (counter sw))) as [H|H]; [lia|].
    eexists _, (sleep_current sw). unfold bind. rewrite sleep_run.
    unfold ret. repeat split.
Qed.

Lemma proceed_stop (sw : safe_while) (s : state W) :
  (sw_tries sw <= counter sw)%nat -> (1 <= counter sw)%nat ->
  proceed sw s = (Raise MaxWhileTries, s).
Proof.
  intros H1 H2. unfold proceed.
  destruct (Nat.eqb_spec (S (counter sw)) 1) as [E|E]; [lia|].
  destruct (Nat.ltb_spec (sw_tries sw) (S (counter sw))) as [H|H]; [|lia].
  reflexivity.
Qed.

(** One round of the loop of [retry]. *)
Lemma retry_loop_step {A} (fuel : nat) (sw : safe_while) (tries : nat)
      (c : call) (f : op W A) (s : state W) :
  retry_loop (S fuel) sw tries c f s
  = match proceed sw s with
    | (Raise e, s0) => (Raise e, s0)
    | (Ok sw', s0) =>
        match f (backend s0) with
        | (Ok r, w) => (Ok r, moved s0 w [c] (late_success c (S tries)) 0)
        | (Raise e, w) =>
            if RETRY_EXCEPTIONS e
            then retry_loop fuel sw' (S tries) c f (moved s0 w [c] [] 0)
            else (Raise e, moved s0 w [c] [] 0)
        end
    end.
Proof.
  cbn [retry_loop]. unfold bind at 1.
  destruct (proceed sw s) as [[sw'|e] s0]; [|reflexivity].
  unfold try_except, bind. rewrite invoke_run.
  destruct (f (backend s0)) as [[r|e] w]; cbn [fst snd]; [|reflexivity].
  unfold late_success.
  destruct (1 <? S tries)%nat.
  - rewrite log_run. unfold ret. rewrite moved_moved. reflexivity.
  - unfold ret. reflexivity.
Qed.

End Frames.

(* ================================================================== *)
(** * retry *)

Section RetryFacts.

Context {W A : Type} (c : call) (f : op W A).

Lemma retry_loop_succeeds_after (n : nat) :
  forall fuel sw tries (s : state W) w r w',
    sw_tries sw = retry_tries ->
    (counter sw + n < retry_tries)%nat -> (n < fuel)%nat ->
    transient_failures f n (backend s) = Some w ->
    f w = (Ok r, w') ->
    exists t,
      retry_loop fuel sw tries c f s
      = (Ok r, moved s w' (repeat c (S n)) (late_success c (tries + S n)) t).
Proof.
  induction n as [|n IH]; intros fuel sw tries s w r w' Htries Hbudget Hfuel Hfail Hok;
    (destruct fuel as [|fuel]; [lia|]); rewrite retry_loop_step;
    destruct (proceed_pass sw s) as (sw' & t0 & Hp & Hc & Ht); try lia;
    rewrite Hp; cbn [backend moved].
  - cbn [transient_failures] in Hfail. injection Hfail as <-. rewrite Hok.
    exists (t0 + 0). rewrite moved_moved, Nat.add_1_r. reflexivity.
  - cbn [transient_failures] in Hfail.
    destruct (f (backend s)) as [[r0|e] w1]; [discriminate|].
    destruct (RETRY_EXCEPTIONS e); [|discriminate].
    destruct (IH fuel sw' (S tries) (moved (moved s (backend s) [] [] t0) w1 [c] [] 0)
                 w r w') as (t & Hrun); try assumption; try lia.
    exists (t0 + 0 + t). rewrite Hrun, !moved_moved.
    cbn [app repeat].
    replace (S tries + S n)%nat with (tries + S (S n))%nat by lia.
    now rewrite Z.add_assoc.
Qed.

Lemma retry_loop_fatal_after (n : nat) :
  forall fuel sw tries (s : state W) w e w',
    sw_tries sw = retry_tries ->
    (counter sw + n < retry_tries)%nat -> (n < fuel)%nat ->
    transient_failures f n (backend s) = Some w ->
    f w = (Raise e, w') ->
    RETRY_EXCEPTIONS e = false ->
    exists t,
      retry_loop fuel sw tries c f s
      = (Raise e, moved s w' (repeat c (S n)) [] t).
Proof.
  induction n as [|n IH];
    intros fuel sw tries s w e w' Htries Hbudget Hfuel Hfail Hraise He;
    (destruct fuel as [|fuel]; [lia|]); rewrite retry_loop_step;
    destruct (proceed_pass sw s) as (sw' & t0 & Hp & Hc & Ht); try lia;
    rewrite Hp; cbn [backend moved].
  - cbn [transient_failures] in Hfail. injection Hfail as <-.
    rewrite Hraise, He. exists (t0 + 0). now rewrite moved_moved.
  - cbn [transient_failures] in Hfail.
    destruct (f (backend s)) as [[r0|e0] w1]; [discriminate|].
    destruct (RETRY_EXCEPTIONS e0); [|discriminate].
    destruct (IH fuel sw' (S tries)
                 (moved (moved s (backend s) [] [] t0) w1 [c] [] 0) w e w')
      as (t & Hrun); try assumption; try lia.
    eexists. rewrite Hrun, !moved_moved. reflexivity.
Qed.

Lemma retry_loop_moves (fuel : nat) :
  forall sw tries (s : state W),
    sw_tries sw = retry_tries ->
    exists r w k ls t,
      retry_loop fuel sw tries c f s = (r, moved s w (repeat c k) ls t)
      /\ (k <= retry_tries - counter sw)%nat
      /\ ((counter sw < retry_tries)%nat -> (0 < fuel)%nat -> (1 <= k)%nat).
Proof.
  induction fuel as [|fuel IH]; intros sw tries s Htries.
  - exists (Raise MaxWhileTries), (backend s), 0%nat, [], 0.
    cbn [retry_loop repeat]. rewrite moved_nothing.
    split; [reflexivity | split; lia].
  - rewrite retry_loop_step.
    destruct (Nat.lt_ge_cases (counter sw) retry_tries) as [Hlt|Hge].
    + destruct (proceed_pass sw s) as (sw' & t0 & Hp & Hc & Ht); [lia|].
      rewrite Hp. cbn [backend moved].
      destruct (f (backend s)) as [[r|e] w].
      * exists (Ok r), w, 1%nat, (late_success c (S tries)), (t0 + 0).
        rewrite moved_moved. split; [reflexivity | split; lia].
      * destruct (RETRY_EXCEPTIONS e).
        -- destruct (IH sw' (S tries)
                        (moved (moved s (backend s) [] [] t0) w [c] [] 0))
             as (r & w2 & k & ls & t & Hrun & Hk & _); [congruence|].
           exists r, w2, (S k), ls. eexists.
           rewrite Hrun, !moved_moved. split; [reflexivity | split; lia].
        -- exists (Raise e), w, 1%nat, [], (t0 + 0).
           rewrite moved_moved. split; [reflexivity | split; lia].
    + rewrite proceed_stop by (unfold retry_tries in *; lia).
      exists (Raise MaxWhileTries), (backend s), 0%nat, [], 0.
      rewrite moved_nothing. split; [reflexivity | split; lia].
Qed.

(** Whatever the operation does, [retry] calls it at least once and at
    most [retry_tries] times, and touches nothing else. *)
Lemma retry_moves (s : state W) :
  exists r w k ls t,
    retry c f s = (r, moved s w (repeat c k) ls t)
    /\ (1 <= k <= retry_tries)%nat.
Proof.
  destruct (retry_loop_moves (S retry_tries) (new_safe_while 1 retry_tries 1) 0 s
              eq_refl) as (r & w & k & ls & t & Hrun & Hk & Hone).
  exists r, w, k, ls, t. split; [exact Hrun|].
  cbn [counter new_safe_while] in *. unfold retry_tries in *. lia.
Qed.

Lemma retry_fatal_at_once (s : state W) (e : exn) (w' : W) :
  f (backend s) = (Raise e, w') ->
  RETRY_EXCEPTIONS e = false ->
  retry c f s = (Raise e, moved s w' [c] [] 0).
Proof.
  intros Hf He. unfold retry. rewrite retry_loop_step.
  cbn [proceed new_safe_while counter Nat.eqb]. unfold ret.
  now rewrite Hf, He.
Qed.

End RetryFacts.

(** C3: when the operation raises a retried (rate-limit) exception
    exactly N times, with N + 1 within the budget of 24 attempts, and
    then succeeds, [retry] returns that result after exactly N + 1
    invocations (and logs the attempt count only if N > 0); when the
    first invocation raises any other exception, that exception
    propagates after this single invocation, with no wait; and after
    N retried failures another exception propagates at once as well,
    no invocation following it. *)
Theorem retry_contract :
  forall W A (c : call) (f : op W A) (s : state W),
    (forall N w r w',
        (N + 1 <= retry_tries)%nat ->
        transient_failures f N (backend s) = Some w ->
        f w = (Ok r, w') ->
        exists s',
          retry c f s = (Ok r, s')
          /\ backend s' = w'
          /\ calls s' = (calls s ++ repeat c (N + 1))%list
          /\ logged s' = (logged s ++ late_success c (N + 1))%list)
    /\ (forall e w',
           f (backend s) = (Raise e, w') ->
           RETRY_EXCEPTIONS e = false ->
           exists s',
             retry c f s = (Raise e, s')
             /\ backend s' = w'
             /\ calls s' = (calls s ++ [c])%list
             /\ logged s' = logged s
             /\ slept s' = slept s)
    /\ (forall N w e w',
           (N + 1 <= retry_tries)%nat ->
           transient_failures f N (backend s) = Some w ->
           f w = (Raise e, w') ->
           RETRY_EXCEPTIONS e = false ->
           exists s',
             retry c f s = (Raise e, s')
             /\ backend s' = w'
             /\ calls s' = (calls s ++ repeat c (N + 1))%list
             /\ logged s' = logged s).
Proof.
  intros W A c f s. split; [|split].
  - intros N w r w' HN Hfail Hok.
    destruct (@retry_loop_succeeds_after W A c f N (S retry_tries)
                (new_safe_while 1 retry_tries 1) 0%nat s w r w')
      as (t & Hrun); try assumption; try reflexivity.
    + cbn [counter new_safe_while]. lia.
    + lia.
    + eexists. split; [exact Hrun|]. rewrite Nat.add_1_r.
      repeat split.
  - intros e w' Hf He. exists (moved s w' [c] [] 0).
    split; [apply retry_fatal_at_once; assumption|].
    cbn [moved backend calls logged slept]. rewrite app_nil_r, Z.add_0_r.
    repeat split.
  - intros N w e w' HN Hfail Hraise He.
    destruct (@retry_loop_fatal_after W A c f N (S retry_tries)
                (new_safe_while 1 retry_tries 1) 0%nat s w e w')
      as (t & Hrun); try assumption; try reflexivity.
    + cbn [counter new_safe_while]. lia.
    + lia.
    + eexists. split; [exact Hrun|]. rewrite Nat.add_1_r.
      cbn [moved backend calls logged]. rewrite app_nil_r. repeat split.
Qed.

(* ================================================================== *)
(** * The cleanup sweep *)

Section SweepFacts.

Context {W : Type} (self : Provisioner W).

Let drv : Driver W := driver (provider self).

Lemma try_detach_after (vol : Volume) (s : state W) :
  try_detach self vol s
  = match retry (Call_detach_volume vol) (detach_volume drv vol) s with
    | (Ok _, s1) => (Ok tt, s1)
    | (Raise e, s1) => (Ok tt, moved s1 (backend s1) [] [detach_failed vol e] 0)
    end.
Proof.
  unfold try_detach, try_except, bind. fold drv.
  destruct (retry _ _ s) as [[b|e] s1]; [reflexivity|].
  cbn [Exception]. unfold log_exception. now rewrite log_run.
Qed.

Lemma try_destroy_after (vol : Volume) (s : state W) :
  try_destroy self vol s
  = match retry (Call_destroy_volume vol) (destroy_volume drv vol) s with
    | (Ok _, s1) => (Ok tt, s1)
    | (Raise e, s1) => (Ok tt, moved s1 (backend s1) [] [destroy_failed vol e] 0)
    end.
Proof.
  unfold try_destroy, try_except, bind. fold drv.
  destruct (retry _ _ s) as [[b|e] s1]; [reflexivity|].
  cbn [Exception]. unfold log_exception. now rewrite log_run.
Qed.

Lemma try_detach_moves (vol : Volume) (s : state W) :
  exists w k ls t,
    try_detach self vol s
    = (Ok tt, moved s w (repeat (Call_detach_volume vol) k) ls t)
    /\ (1 <= k <= retry_tries)%nat.
Proof.
  rewrite try_detach_after.
  destruct (retry_moves (Call_detach_volume vol) (detach_volume drv vol) s)
    as (r & w & k & ls & t & Hrun & Hk).
  rewrite Hrun. destruct r as [b|e].
  - now exists w, k, ls, t.
  - exists w, k. do 2 eexists. rewrite moved_moved, app_nil_r.
    split; [reflexivity | exact Hk].
Qed.

Lemma try_destroy_moves (vol : Volume) (s : state W) :
  exists w k ls t,
    try_destroy self vol s
    = (Ok tt, moved s w (repeat (Call_destroy_volume vol) k) ls t)
    /\ (1 <= k <= retry_tries)%nat.
Proof.
  rewrite try_destroy_after.
  destruct (retry_moves (Call_destroy_volume vol) (destroy_volume drv vol) s)
    as (r & w & k & ls & t & Hrun & Hk).
  rewrite Hrun. destruct r as [b|e].
  - now exists w, k, ls, t.
  - exists w, k. do 2 eexists. rewrite moved_moved, app_nil_r.
    split; [reflexivity | exact Hk].
Qed.

(** The sweep over any list of volumes never raises and tries both
    steps on every volume. *)
Lemma sweep_moves (vols : list Volume) :
  forall s : state W,
    exists w cs ls t,
      for_each vols (detach_and_destroy self) s = (Ok tt, moved s w cs ls t)
      /\ attempts vols cs.
Proof.
  induction vols as [|vol vols IH]; intros s.
  - exists (backend s), [], [], 0. cbn [for_each]. unfold ret.
    rewrite moved_nothing. split; [reflexivity | constructor].
  - cbn [for_each]. rewrite bind_run. unfold detach_and_destroy at 1.
    rewrite bind_run.
    destruct (try_detach_moves vol s) as (w1 & k & ls1 & t1 & H1 & Hk).
    rewrite H1.
    destruct (try_destroy_moves vol (moved s w1 (repeat (Call_detach_volume vol) k) ls1 t1))
      as (w2 & m & ls2 & t2 & H2 & Hm).
    rewrite H2.
    destruct (IH (moved (moved s w1 (repeat (Call_detach_volume vol) k) ls1 t1)
                        w2 (repeat (Call_destroy_volume vol) m) ls2 t2))
      as (w3 & cs & ls3 & t3 & H3 & Hcs).
    rewrite H3, !moved_moved. do 4 eexists. split; [reflexivity|].
    rewrite <- ?app_assoc. now constructor.
Qed.

Lemma destroy_volumes_after (s : state W) :
  _destroy_volumes self s
  = match retry Call_list_volumes (list_volumes drv) s with
    | (Ok all_volumes, s1) =>
        for_each (our_volumes self all_volumes) (detach_and_destroy self) s1
    | (Raise e, s1) => (Raise e, s1)
    end.
Proof.
  unfold _destroy_volumes, bind. fold drv.
  now destruct (retry _ _ s) as [[all|e] s1].
Qed.

End SweepFacts.

(** C9: the sweep never raises.  For every volume of the set, in
    order, detach is attempted and then destroy is attempted, whatever
    the attempts on this or on earlier volumes did; what was logged
    before (the provisioning failure among it) is kept and every
    failed step adds its own record. *)
Theorem sweep_is_best_effort :
  forall W (self : Provisioner W) (s : state W),
    let drv := driver (provider self) in
    (forall vols,
        exists s' cs ls,
          for_each vols (detach_and_destroy self) s = (Ok tt, s')
          /\ calls s' = (calls s ++ cs)%list /\ attempts vols cs
          /\ logged s' = (logged s ++ ls)%list)
    /\ (forall all_volumes s1,
           retry Call_list_volumes (list_volumes drv) s = (Ok all_volumes, s1) ->
           exists s2 cs ls,
             _destroy_volumes self s = (Ok tt, s2)
             /\ calls s2 = (calls s1 ++ cs)%list
             /\ attempts (our_volumes self all_volumes) cs
             /\ logged s2 = (logged s1 ++ ls)%list)
    /\ (forall vol e s1,
           retry (Call_detach_volume vol) (detach_volume drv vol) s = (Raise e, s1) ->
           exists s2 m ls,
             detach_and_destroy self vol s = (Ok tt, s2)
             /\ (1 <= m <= retry_tries)%nat
             /\ calls s2 = (calls s1 ++ repeat (Call_destroy_volume vol) m)%list
             /\ logged s2 = (logged s1 ++ detach_failed vol e :: ls)%list)
    /\ (forall vol e s1,
           retry (Call_destroy_volume vol) (destroy_volume drv vol) s = (Raise e, s1) ->
           exists s2,
             try_destroy self vol s = (Ok tt, s2)
             /\ calls s2 = calls s1
             /\ logged s2 = (logged s1 ++ [destroy_failed vol e])%list).
Proof.
  intros W self s drv. repeat apply conj.
  - intros vols. destruct (sweep_moves self vols s) as (w & cs & ls & t & H & Hcs).
    exists (moved s w cs ls t), cs, ls. now rewrite H.
  - intros all s1 Hlist. rewrite destroy_volumes_after. fold drv. rewrite Hlist.
    destruct (sweep_moves self (our_volumes self all) s1)
      as (w & cs & ls & t & H & Hcs).
    exists (moved s1 w cs ls t), cs, ls. now rewrite H.
  - intros vol e s1 Hdetach. unfold detach_and_destroy. rewrite bind_run.
    rewrite try_detach_after. fold drv. rewrite Hdetach.
    destruct (try_destroy_moves self vol
                (moved s1 (backend s1) [] [detach_failed vol e] 0))
      as (w & m & ls & t & H & Hm).
    rewrite H, moved_moved. do 3 eexists. split; [reflexivity|].
    cbn [moved calls logged app]. now split.
  - intros vol e s1 Hdestroy. rewrite try_destroy_after. fold drv.
    rewrite Hdestroy. eexists. split; [reflexivity|].
    cbn [moved calls logged]. now rewrite app_nil_r.
Qed.

(* ================================================================== *)
(** * Volume provisioning and rollback *)

Section CreateFacts.

Context {W : Type} (self : Provisioner W).

Let drv : Driver W := driver (provider self).

Lemma for_each_stops {B} (body : B -> M W unit) (pre : list B) :
  forall x post (s s1 s2 : state W) e,
    for_each pre body s = (Ok tt, s1) ->
    body x s1 = (Raise e, s2) ->
    for_each (pre ++ x :: post)%list body s = (Raise e, s2).
Proof.
  induction pre as [|y pre IH]; intros x post s s1 s2 e Hpre Hx.
  - cbn [for_each] in Hpre. injection Hpre as <-.
    cbn [app for_each]. rewrite bind_run. now rewrite Hx.
  - cbn [app for_each] in *. rewrite bind_run in *.
    destruct (body y s) as [[[]|e0] s0]; [|discriminate].
    now apply IH with (s1 := s1).
Qed.

Lemma create_volumes_aborts (s s1 s2 : state W) volumes vol_count vol_size
      pre nm post e :
  Conf.item (conf self) "volumes" = Ok volumes ->
  Conf.item volumes "count" = Ok (Conf.Num vol_count) ->
  Conf.item volumes "size" = Ok vol_size ->
  vol_names self vol_count = (pre ++ nm :: post)%list ->
  for_each pre (create_and_attach self vol_size) s = (Ok tt, s1) ->
  create_and_attach self vol_size nm s1 = (Raise e, s2) ->
  _create_volumes self s
  = (Ok false, moved s2 (backend s2) [] [create_failed e] 0).
Proof.
  intros Hv Hc Hs Hnames Hpre Hnm.
  unfold _create_volumes, item, as_int, try_except.
  cbv beta iota delta [bind lift].
  rewrite Hv; cbv beta iota. rewrite Hc; cbv beta iota delta [Conf.as_int].
  rewrite Hs; cbv beta iota. rewrite Hnames.
  rewrite (for_each_stops _ pre nm post s Hpre Hnm).
  cbn [Exception]. unfold log_exception. rewrite log_run. reflexivity.
Qed.

Lemma create_after_prelude (s s0 : state W) :
  create_node_and_wait self s = (Ok tt, s0) ->
  _create self s = create_volumes_and_finish self s0.
Proof. intros H. unfold _create. rewrite bind_run. now rewrite H. Qed.

Lemma finish_after_failed_volumes (s0 s3 : state W) :
  _create_volumes self s0 = (Ok false, s3) ->
  create_volumes_and_finish self s0
  = match _destroy_volumes self s3 with
    | (Ok _, s4) => (Ok ReturnFalse, s4)
    | (Raise e, s4) => (Raise e, s4)
    end.
Proof.
  intros H. unfold create_volumes_and_finish. rewrite bind_run, H.
  cbn [negb]. rewrite bind_run. now destruct (_destroy_volumes self s3) as [[[]|e] s4].
Qed.

End CreateFacts.

(** C1 (as written) fails: on the small cloud whose second
    create_volume fails and whose volume listing is refused, the loop
    of [_create_volumes] is aborted (it answers False) and the volume
    "vm07_0", created before, carries the prefix of the node; yet
    [_create] does not return False: the exception of the listing
    comes out of it, and after the failed create_volume the backend is
    asked for the listing only, neither detach nor destroy being
    attempted on "vm07_0", which stays in the cloud. *)
Lemma failed_listing_escapes_create :
  let self := provisioner_on listing_down in
  let s0 := snd (create_node_and_wait self Mock.start) in
  let run := _create self Mock.start in
  let node_ := Some (mkNode 7 "vm07") in
  let vol := mkVolume 0 "vm07_0" in
  fst (create_node_and_wait self Mock.start) = Ok tt
  /\ fst (_create_volumes self s0) = Ok false
  /\ fst run = Raise (BackendError "volume service is down")
  /\ fst run <> Ok ReturnFalse
  /\ Mock.volumes (backend (snd run)) = [mkVolume 100 "vm070_0"; vol]
  /\ PyStr.startswith (volume_name vol) (name self ++ "_") = true
  /\ calls (snd run)
     = (calls s0
          ++ [Call_create_volume (Conf.Num 10) "vm07_0";
              Call_attach_volume node_ vol;
              Call_create_volume (Conf.Num 10) "vm07_1";
              Call_list_volumes])%list.
Proof.
  intros self s0 run node_ vol.
  split; [vm_compute; reflexivity|].
  split; [vm_compute; reflexivity|].
  split; [vm_compute; reflexivity|].
  split; [vm_compute; discriminate|].
  split; [vm_compute; reflexivity|].
  split; vm_compute; reflexivity.
Qed.

(** C1 (amended): when creating or attaching some volume raises, no
    further volume is tried and [_create_volumes] answers False;
    [_create] then starts the sweep by listing the volumes and never
    hands back the node.  If the listing succeeds, detach and then
    destroy are attempted on every listed volume whose name starts
    with the node name and an underscore, on those only, and [_create]
    returns False.  If the listing itself raises, its exception comes
    out of [_create] and nothing but the listing was called after the
    failed volume. *)
Theorem volume_failure_rolls_back :
  forall W (self : Provisioner W) (s s0 s1 s2 : state W)
         volumes vol_count vol_size pre nm post e,
    let drv := driver (provider self) in
    let s3 := moved s2 (backend s2) [] [create_failed e] 0 in
    create_node_and_wait self s = (Ok tt, s0) ->
    Conf.item (conf self) "volumes" = Ok volumes ->
    Conf.item volumes "count" = Ok (Conf.Num vol_count) ->
    Conf.item volumes "size" = Ok vol_size ->
    vol_names self vol_count = (pre ++ nm :: post)%list ->
    for_each pre (create_and_attach self vol_size) s0 = (Ok tt, s1) ->
    create_and_attach self vol_size nm s1 = (Raise e, s2) ->
    _create_volumes self s0 = (Ok false, s3)
    /\ (exists r s4 k cs,
           _create self s = (r, s4)
           /\ (forall n, r <> Ok (ReturnNode n))
           /\ (1 <= k <= retry_tries)%nat
           /\ calls s4 = (calls s2 ++ repeat Call_list_volumes k ++ cs)%list)
    /\ (forall all_volumes s',
           retry Call_list_volumes (list_volumes drv) s3 = (Ok all_volumes, s') ->
           exists s4 cs ls,
             _create self s = (Ok ReturnFalse, s4)
             /\ calls s4 = (calls s' ++ cs)%list
             /\ attempts
                  (filter (fun vol =>
                             PyStr.startswith (volume_name vol) (name self ++ "_"))
                          all_volumes)
                  cs
             /\ logged s4 = (logged s2 ++ create_failed e :: ls)%list)
    /\ (forall e' s',
           retry Call_list_volumes (list_volumes drv) s3 = (Raise e', s') ->
           _create self s = (Raise e', s')
           /\ exists k,
               (1 <= k <= retry_tries)%nat
               /\ calls s' = (calls s2 ++ repeat Call_list_volumes k)%list).
Proof.
  intros W self s s0 s1 s2 volumes vol_count vol_size pre nm post e drv s3
         Hprelude Hv Hc Hs Hnames Hpre Hnm.
  assert (Hvol : _create_volumes self s0 = (Ok false, s3))
    by (eapply create_volumes_aborts; eassumption).
  assert (Hcreate := create_after_prelude self s Hprelude).
  rewrite (finish_after_failed_volumes self s0 Hvol) in Hcreate.
  rewrite destroy_volumes_after in Hcreate. fold drv in Hcreate.
  split; [exact Hvol | split; [|split]].
  - destruct (retry_moves Call_list_volumes (list_volumes drv) s3)
      as (r & w & k & ls & t & Hrun & Hk).
    rewrite Hrun in Hcreate. destruct r as [all|e'].
    + destruct (sweep_moves self (our_volumes self all)
                  (moved s3 w (repeat Call_list_volumes k) ls t))
        as (w' & cs & ls' & t' & Hsweep & _).
      rewrite Hsweep in Hcreate.
      do 2 eexists. exists k, cs. split; [exact Hcreate|].
      split; [discriminate | split; [exact Hk|]].
      unfold s3. rewrite !moved_moved. cbn [moved calls app].
      now rewrite app_assoc.
    + do 2 eexists. exists k, []. split; [exact Hcreate|].
      split; [discriminate | split; [exact Hk|]].
      unfold s3. rewrite !moved_moved. cbn [moved calls app].
      now rewrite app_nil_r.
  - intros all s' Hlist. rewrite Hlist in Hcreate.
    destruct (retry_moves Call_list_volumes (list_volumes drv) s3)
      as (r & w & k & ls & t & Hrun & Hk).
    rewrite Hlist in Hrun. injection Hrun as _ ->.
    destruct (sweep_moves self (our_volumes self all)
                (moved s3 w (repeat Call_list_volumes k) ls t))
      as (w' & cs & ls' & t' & Hsweep & Hcs).
    rewrite Hsweep in Hcreate.
    do 3 eexists. split; [exact Hcreate|].
    split; [reflexivity | split; [exact Hcs|]].
    unfold s3. rewrite !moved_moved. cbn [moved logged app]. reflexivity.
  - intros e' s' Hlist. rewrite Hlist in Hcreate. split; [exact Hcreate|].
    destruct (retry_moves Call_list_volumes (list_volumes drv) s3)
      as (r & w & k & ls & t & Hrun & Hk).
    rewrite Hlist in Hrun. injection Hrun as _ ->.
    exists k. split; [exact Hk|].
    unfold s3. rewrite !moved_moved. cbn [moved calls app]. reflexivity.
Qed.

(* ================================================================== *)
(** * Node lookup and destruction *)

Section NodeFacts.

Context {W : Type} (self : Provisioner W).

Let drv : Driver W := driver (provider self).

(** A node that was looked up (or created) before is answered from the
    attribute: no call, no change. *)
Lemma node_when_cached (s : state W) (n : Node) :
  _node s = Some n -> node self s = (Ok (Some n), s).
Proof.
  intros H. unfold node, return__node.
  cbv beta iota delta [bind get ret]. rewrite H. cbv beta iota. now rewrite H.
Qed.

(** The first lookup, by the outcome of the (retried) listing. *)
Lemma node_lookup (s : state W) :
  _node s = None ->
  node self s
  = match retry Call_list_nodes (list_nodes drv) s with
    | (Raise e, s1) => (Raise e, s1)
    | (Ok [], s1) => (Raise AttributeError, s1)
    | (Ok (n :: ns), s1) =>
        match node_matches self (n :: ns) with
        | [] => (Ok None, moved s1 (backend s1) [] [no_nodes_found (name self)] 0)
        | [found] => (Ok (Some found), with_node found s1)
        | _ :: _ :: _ => (Raise (many_nodes_error (name self)), s1)
        end
    end.
Proof.
  intros H. unfold node. rewrite bind_run. unfold get at 1. rewrite H.
  rewrite bind_run. fold drv.
  destruct (retry_moves Call_list_nodes (list_nodes drv) s)
    as (r & w & k & ls & t & Hrun & _).
  rewrite Hrun. destruct r as [[|n ns]|e]; [| |reflexivity].
  - unfold return__node. rewrite bind_run. unfold get.
    cbn [moved _node]. now rewrite H.
  - destruct (node_matches self (n :: ns)) as [|found [|other more]].
    + rewrite bind_run, log_run. reflexivity.
    + reflexivity.
    + reflexivity.
Qed.

(** An empty catalog: the lookup ends in AttributeError. *)
Lemma node_empty_catalog (s s1 : state W) :
  _node s = None ->
  retry Call_list_nodes (list_nodes drv) s = (Ok [], s1) ->
  node self s = (Raise AttributeError, s1).
Proof. intros H Hlist. now rewrite node_lookup, Hlist. Qed.

(** A catalog that is not empty: no match is "not found" (with a
    warning, nothing cached), one match is returned and cached, so
    that the next access answers the same node without a call, and
    several matches raise. *)
Lemma node_nonempty_catalog (s s1 : state W) (n : Node) (ns : list Node) :
  _node s = None ->
  retry Call_list_nodes (list_nodes drv) s = (Ok (n :: ns), s1) ->
  match node_matches self (n :: ns) with
  | [] => exists s2, node self s = (Ok None, s2)
                     /\ calls s2 = calls s1 /\ _node s2 = None
                     /\ logged s2 = (logged s1 ++ [no_nodes_found (name self)])%list
  | [found] => exists s2, node self s = (Ok (Some found), s2)
                          /\ calls s2 = calls s1
                          /\ node self s2 = (Ok (Some found), s2)
  | _ :: _ :: _ => node self s = (Raise (many_nodes_error (name self)), s1)
  end.
Proof.
  intros H Hlist. rewrite node_lookup, Hlist by exact H.
  destruct (retry_moves Call_list_nodes (list_nodes drv) s)
    as (r & w & k & ls & t & Hrun & _).
  rewrite Hlist in Hrun. injection Hrun as _ ->.
  destruct (node_matches self (n :: ns)) as [|found [|other more]].
  - eexists. split; [reflexivity|]. cbn [moved calls _node logged].
    now rewrite app_nil_r.
  - eexists. split; [reflexivity|]. split; [reflexivity|].
    now apply node_when_cached.
  - reflexivity.
Qed.

Lemma node_found_is_cached (s s1 : state W) (n : Node) :
  node self s = (Ok (Some n), s1) -> _node s1 = Some n.
Proof.
  destruct (_node s) as [m|] eqn:H.
  - rewrite (node_when_cached s H). now intros [= <- <-].
  - rewrite node_lookup by exact H.
    destruct (retry _ _ s) as [[[|x xs]|e] s0]; try discriminate.
    destruct (node_matches self (x :: xs)) as [|found [|other more]];
      try discriminate.
    now intros [= <- <-].
Qed.

Lemma destroy_absent (s s1 : state W) :
  node self s = (Ok None, s1) -> _destroy self s = (Ok true, s1).
Proof. intros H. unfold _destroy. now rewrite bind_run, H. Qed.

Lemma destroy_found (s s1 : state W) (n : Node) :
  node self s = (Ok (Some n), s1) ->
  _destroy self s
  = match _destroy_volumes self
            (moved s1 (backend s1) []
                   [mkLog INFO "Destroying node: %s" [ANode (Some n)]] 0) with
    | (Ok _, s2) => invoke (Call_destroy_node n) (destroy_node drv n) s2
    | (Raise e, s2) => (Raise e, s2)
    end.
Proof.
  intros H. pose proof (node_found_is_cached s H) as Hc.
  unfold _destroy. rewrite bind_run, H. rewrite bind_run.
  rewrite (node_when_cached s1 Hc). rewrite bind_run, log_run, bind_run.
  destruct (_destroy_volumes self _) as [[[]|e] s2] eqn:Hsweep; [|reflexivity].
  assert (Hc2 : _node s2 = Some n).
  { rewrite destroy_volumes_after in Hsweep.
    destruct (retry_moves Call_list_volumes (list_volumes (driver (provider self)))
                (moved s1 (backend s1) []
                       [mkLog INFO "Destroying node: %s" [ANode (Some n)]] 0))
      as (r & w & k & ls & t & Hrun & _).
    rewrite Hrun in Hsweep. destruct r as [all|e]; [|discriminate].
    destruct (sweep_moves self (our_volumes self all)
                (moved (moved s1 (backend s1) []
                          [mkLog INFO "Destroying node: %s" [ANode (Some n)]] 0)
                       w (repeat Call_list_volumes k) ls t))
      as (w' & cs & ls' & t' & Hrun' & _).
    rewrite Hrun' in Hsweep. injection Hsweep as <-. exact Hc. }
  rewrite bind_run, (node_when_cached s2 Hc2). reflexivity.
Qed.

End NodeFacts.

(** C7 (the code at the failing input): with an empty node catalog and
    nothing cached, the accessor lists the nodes once and then raises
    AttributeError instead of answering "not found". *)
Theorem node_lookup_on_empty_catalog :
  let self := Mock.self None true in
  let s := fresh (Mock.mkCloud 0 [] [] 0) in
  list_nodes (driver (provider self)) (backend s) = (Ok [], backend s)
  /\ fst (node self s) = Raise AttributeError
  /\ calls (snd (node self s)) = [Call_list_nodes].
Proof. repeat split. Qed.

(** C8 (the code at the failing input): destroying a name on a cloud
    with no node at all does not return success; the AttributeError
    of the node accessor comes out of [_destroy]. *)
Theorem destroy_on_empty_catalog :
  let self := Mock.self None true in
  let s := fresh (Mock.mkCloud 0 [] [] 0) in
  node_matches self (Mock.nodes (backend s)) = []
  /\ fst (_destroy self s) = Raise AttributeError
  /\ calls (snd (_destroy self s)) = [Call_list_nodes].
Proof. repeat split. Qed.

(* ================================================================== *)
(** * The properties at work on the small cloud *)

Lemma retry_contract_witness :
  let lister := list_nodes (Mock.driver None true) in
  let creator :=
    create_volume (Mock.driver (Some 0%nat) true) (Conf.Num 10) "vm07_0" in
  let flaky : op nat bool :=
    fun w => match w with
             | O => (Raise (BackendError "gone"), O)
             | S n => (Raise RateLimitReachedError, n)
             end in
  let s := fresh (Mock.mkCloud 2 [mkNode 7 "vm07"] [] 0) in
  (exists s',
      retry Call_list_nodes lister s = (Ok [mkNode 7 "vm07"], s')
      /\ backend s' = Mock.mkCloud 0 [mkNode 7 "vm07"] [] 0
      /\ calls s' = [Call_list_nodes; Call_list_nodes; Call_list_nodes]
      /\ logged s' = [mkLog DEBUG "'%s' succeeded after %s tries"
                             [ACall Call_list_nodes; ANat 3]])
  /\ (exists s',
         retry (Call_create_volume (Conf.Num 10) "vm07_0") creator s
         = (Raise (BackendError "quota exceeded"), s')
         /\ backend s' = Mock.mkCloud 2 [mkNode 7 "vm07"] [] 1
         /\ calls s' = [Call_create_volume (Conf.Num 10) "vm07_0"]
         /\ logged s' = []
         /\ slept s' = 0)
  /\ (exists s',
         retry Call_remote_connect flaky (fresh 1%nat)
         = (Raise (BackendError "gone"), s')
         /\ backend s' = 0%nat
         /\ calls s' = [Call_remote_connect; Call_remote_connect]
         /\ logged s' = []).
Proof.
  intros lister creator flaky s. split; [|split].
  - apply (proj1 (retry_contract Call_list_nodes lister s) 2%nat
                 (Mock.mkCloud 0 [mkNode 7 "vm07"] [] 0)).
    + unfold retry_tries. lia.
    + reflexivity.
    + reflexivity.
  - apply (proj1 (proj2 (retry_contract (Call_create_volume (Conf.Num 10) "vm07_0")
                                        creator s))); reflexivity.
  - apply (proj2 (proj2 (retry_contract Call_remote_connect flaky (fresh 1%nat)))
                 1%nat 0%nat).
    + unfold retry_tries. lia.
    + reflexivity.
    + reflexivity.
    + reflexivity.
Defined.

Lemma size_selection_witness :
  let self := Mock.self None true in
  let catalog := [mkSize "m1.tiny" 512 5 1; mkSize "m1.small" 2048 20 1] in
  let s := with_sizes catalog (fresh (Mock.mkCloud 0 [] [] 0)) in
  size self s = (Raise IndexError, s).
Proof.
  intros self catalog s.
  apply (proj2 (size_selection catalog 8000 20 1) _ self s
               (Conf.Dict (Conf.DCons "disk" (Conf.Num 20)
                          (Conf.DCons "ram" (Conf.Num 8000)
                          (Conf.DCons "cpus" (Conf.Num 1) Conf.DNil)))));
    try reflexivity.
  intros s' [<-|[<-|[]]]; unfold adequate; simpl; lia.
Defined.

Lemma security_group_resolution_witness :
  let groups := [mkGroup 1 "web"; mkGroup 2 "db"; mkGroup 3 "db"] in
  Select.security_groups (Some ["web"]) groups = Ok (Some [mkGroup 1 "web"])
  /\ Select.security_groups (Some ["web"; "cache"; "db"]) groups
     = Raise (RuntimeError ["No security groups found with name 'cache'"])
  /\ Select.security_groups (Some ["web"; "db"; "cache"]) groups
     = Raise (RuntimeError ["More than one security group found with name 'db'"])
  /\ security_groups (mkProvisioner
                        (mkProvider "openstack" (Mock.driver None true) None None
                                    (fun _ _ => false))
                        "vm07" "ubuntu" "18.04" (Conf.Dict Conf.DNil) "")
                     Mock.start
     = (Ok None, Mock.start).
Proof.
  intros groups.
  destruct (security_group_resolution groups) as (_ & _ & H0 & H1 & H2 & H3).
  assert (Hweb : forall m, In m ["web"] -> single_match groups m)
    by (intros m [<-|[]]; now exists (mkGroup 1 "web")).
  split; [|split; [|split]].
  - apply (H1 ["web"]). intros n [<-|[]]. now exists (mkGroup 1 "web").
  - apply (H2 ["web"] "cache" ["db"] Hweb). reflexivity.
  - apply (H3 ["web"] "db" ["cache"] (mkGroup 2 "db") (mkGroup 3 "db") [] Hweb).
    reflexivity.
  - apply H0. reflexivity.
Defined.

Lemma sweep_is_best_effort_witness :
  let self := Mock.self None false in
  let vol := mkVolume 1 "vm07_0" in
  let busy := BackendError "volume is busy" in
  let in_use := BackendError "volume is in use" in
  let s := fresh (Mock.mkCloud 0 [] [vol; mkVolume 2 "vm070_0"] 0) in
  (exists s2 cs ls,
      _destroy_volumes self s = (Ok tt, s2)
      /\ calls s2 = ([Call_list_volumes] ++ cs)%list
      /\ attempts [vol] cs
      /\ logged s2 = ([] ++ ls)%list)
  /\ (exists s2 m ls,
         detach_and_destroy self vol s = (Ok tt, s2)
         /\ (1 <= m <= retry_tries)%nat
         /\ calls s2 = ([Call_detach_volume vol]
                         ++ repeat (Call_destroy_volume vol) m)%list
         /\ logged s2 = ([] ++ detach_failed vol busy :: ls)%list)
  /\ (exists s2,
         try_destroy self vol s = (Ok tt, s2)
         /\ calls s2 = [Call_destroy_volume vol]
         /\ logged s2 = ([] ++ [destroy_failed vol in_use])%list).
Proof.
  intros self vol busy in_use s.
  destruct (sweep_is_best_effort self s) as (_ & H1 & H2 & H3).
  split; [|split].
  - exact (H1 [vol; mkVolume 2 "vm070_0"]
              (snd (retry Call_list_volumes
                          (list_volumes (driver (provider self))) s))
              eq_refl).
  - exact (H2 vol busy
              (snd (retry (Call_detach_volume vol)
                          (detach_volume (driver (provider self)) vol) s))
              eq_refl).
  - exact (H3 vol in_use
              (snd (retry (Call_destroy_volume vol)
                          (destroy_volume (driver (provider self)) vol) s))
              eq_refl).
Defined.

Lemma volume_failure_rolls_back_witness :
  let self := Mock.self (Some 1%nat) true in
  let lost := provisioner_on listing_down in
  let vol := mkVolume 0 "vm07_0" in
  vol_names self 3 = ["vm07_0"; "vm07_1"; "vm07_2"]
  /\ (exists s4 cs,
         _create self Mock.start = (Ok ReturnFalse, s4)
         /\ attempts [vol] cs
         /\ In (create_failed (BackendError "quota exceeded")) (logged s4))
  /\ (exists s',
         _create lost Mock.start
         = (Raise (BackendError "volume service is down"), s')).
Proof.
  intros self lost vol. split; [reflexivity|].
  pose (quota := BackendError "quota exceeded").
  pose (volumes := Conf.Dict (Conf.DCons "count" (Conf.Num 3)
                             (Conf.DCons "size" (Conf.Num 10) Conf.DNil))).
  split.
  - let v := eval vm_compute in (snd (create_node_and_wait self Mock.start)) in
    pose (s0 := v).
    let v := eval vm_compute in
        (snd (for_each ["vm07_0"] (create_and_attach self (Conf.Num 10)) s0)) in
    pose (s1 := v).
    let v := eval vm_compute in
        (snd (create_and_attach self (Conf.Num 10) "vm07_1" s1)) in
    pose (s2 := v).
    let v := eval vm_compute in
        (snd (retry Call_list_volumes (list_volumes (driver (provider self)))
                    (moved s2 (backend s2) [] [create_failed quota] 0))) in
    pose (s3 := v).
    destruct (@volume_failure_rolls_back _ self Mock.start s0 s1 s2 volumes
                3 (Conf.Num 10) ["vm07_0"] "vm07_1" ["vm07_2"] quota)
      as (_ & _ & H & _); try reflexivity.
    destruct (H [mkVolume 100 "vm070_0"; vol] s3)
      as (s4 & cs & ls & Hrun & _ & Hcs & Hlog); [reflexivity|].
    exists s4, cs. split; [exact Hrun | split; [exact Hcs|]].
    rewrite Hlog. apply in_or_app. right. now left.
  - let v := eval vm_compute in (snd (create_node_and_wait lost Mock.start)) in
    pose (s0 := v).
    let v := eval vm_compute in
        (snd (for_each ["vm07_0"] (create_and_attach lost (Conf.Num 10)) s0)) in
    pose (s1 := v).
    let v := eval vm_compute in
        (snd (create_and_attach lost (Conf.Num 10) "vm07_1" s1)) in
    pose (s2 := v).
    let v := eval vm_compute in
        (snd (retry Call_list_volumes (list_volumes (driver (provider lost)))
                    (moved s2 (backend s2) [] [create_failed quota] 0))) in
    pose (s3 := v).
    destruct (@volume_failure_rolls_back _ lost Mock.start s0 s1 s2 volumes
                3 (Conf.Num 10) ["vm07_0"] "vm07_1" ["vm07_2"] quota)
      as (_ & _ & _ & H); try reflexivity.
    destruct (H (BackendError "volume service is down") s3) as [Hrun _];
      [reflexivity|].
    exists s3. exact Hrun.
Defined.

(* ================================================================== *)
(** * The examples of the specification *)

Example spec_image_first_template :
  Select.image [mkImage 1 "Ubuntu 18.04 server"; mkImage 2 "centos-7"]
               "ubuntu" "18.04"
  = Ok (mkImage 1 "Ubuntu 18.04 server").
Proof. reflexivity. Qed.

Example spec_image_second_template :
  Select.image [mkImage 1 "Ubuntu 18.04 server"; mkImage 2 "centos-7"]
               "centos" "7"
  = Ok (mkImage 2 "centos-7").
Proof. reflexivity. Qed.

Example spec_image_unmatched :
  Select.image [mkImage 1 "Ubuntu 18.04 server"; mkImage 2 "centos-7"]
               "rhel" "8"
  = Raise (RuntimeError ["Could not find an image for %s %s"; "rhel"; "8"]).
Proof. reflexivity. Qed.

Example spec_size_smallest_adequate :
  Select.size [mkSize "A" 4 10 1; mkSize "B" 8 20 2; mkSize "C" 8 40 2] 8 20 2
  = Ok (mkSize "B" 8 20 2).
Proof. reflexivity. Qed.

Example spec_size_order_of_catalog_is_irrelevant :
  Select.size [mkSize "C" 8 40 2; mkSize "A" 4 10 1; mkSize "B" 8 20 2] 8 20 2
  = Ok (mkSize "B" 8 20 2).
Proof. reflexivity. Qed.

Example spec_defaults_alone :
  Conf._read_conf "openstack" None None
  = Conf.Dict (Conf.DCons "machine"
                 (Conf.Dict (Conf.DCons "disk" (Conf.Num 20)
                            (Conf.DCons "ram" (Conf.Num 8000)
                            (Conf.DCons "cpus" (Conf.Num 1) Conf.DNil))))
              (Conf.DCons "volumes"
                 (Conf.Dict (Conf.DCons "count" (Conf.Num 0)
                            (Conf.DCons "size" (Conf.Num 0) Conf.DNil)))
               Conf.DNil)).
Proof. reflexivity. Qed.

(** The second of three volume creations fails: the volume made before
    is found by its name, detached and destroyed; the volume of the
    other node is left alone; the creation answers False. *)
Example spec_volume_rollback :
  let self := Mock.self (Some 1%nat) true in
  let node_ := Some (mkNode 7 "vm07") in
  let vol := mkVolume 0 "vm07_0" in
  fst (_create self Mock.start) = Ok ReturnFalse
  /\ skipn 6 (calls (snd (_create self Mock.start)))
     = [Call_create_volume (Conf.Num 10) "vm07_0";
        Call_attach_volume node_ vol;
        Call_create_volume (Conf.Num 10) "vm07_1";
        Call_list_volumes;
        Call_detach_volume vol;
        Call_destroy_volume vol]
  /\ Mock.volumes (backend (snd (_create self Mock.start)))
     = [mkVolume 100 "vm070_0"].
Proof. vm_compute. repeat split. Qed.

(** Two accesses to the node, the catalog answering only after two
    rate-limit errors: one retried listing, the same node twice. *)
Example spec_node_lookup_twice :
  let self := Mock.self None true in
  let s := fresh (Mock.mkCloud 2 [mkNode 1 "other"; mkNode 2 "vm07"] [] 0) in
  let first := node self s in
  let second := node self (snd first) in
  fst first = Ok (Some (mkNode 2 "vm07"))
  /\ fst second = fst first
  /\ calls (snd second) = [Call_list_nodes; Call_list_nodes; Call_list_nodes]
  /\ snd second = snd first.
Proof. vm_compute. repeat split. Qed.

Example spec_destroy_absent_name :
  let self := Mock.self None true in
  let s := fresh (Mock.mkCloud 0 [mkNode 1 "other"] [mkVolume 1 "vm07_0"] 0) in
  fst (_destroy self s) = Ok true
  /\ calls (snd (_destroy self s)) = [Call_list_nodes].
Proof. vm_compute. repeat split. Qed.

Example spec_destroy_existing_node :
  let self := Mock.self None true in
  let s := fresh (Mock.mkCloud 0 [mkNode 1 "other"; mkNode 2 "vm07"]
                               [mkVolume 1 "vm07_0"; mkVolume 2 "vm070_0"] 0) in
  fst (_destroy self s) = Ok true
  /\ calls (snd (_destroy self s))
     = [Call_list_nodes; Call_list_volumes;
        Call_detach_volume (mkVolume 1 "vm07_0");
        Call_destroy_volume (mkVolume 1 "vm07_0");
        Call_destroy_node (mkNode 2 "vm07")].
Proof. vm_compute. repeat split. Qed.

(* ================================================================== *)
(** * More on retry: bounds, exhaustion and waiting time *)

Section RetryTiming.

Context {W A : Type} (c : call) (f : op W A).

Lemma waits_closed (sc inc : Z) (n : nat) :
  2 * waits sc inc n
  = Z.of_nat n * (2 * sc + inc * (Z.of_nat n - 1)).
Proof.
  revert sc. induction n as [|n IH]; intros sc; [reflexivity|].
  cbn [waits]. rewrite Z.mul_add_distr_l, IH. nia.
Qed.

Lemma proceed_first (sl inc sc : Z) (tr : nat) (s : state W) :
  proceed (mkSafeWhile sl tr inc 0 sc) s
  = (Ok (mkSafeWhile sl tr inc 1 sc), s).
Proof. reflexivity. Qed.

Lemma proceed_sleeps (sl inc sc : Z) (tr k : nat) (s : state W) :
  (1 <= k < tr)%nat ->
  proceed (mkSafeWhile sl tr inc k sc) s
  = (Ok (mkSafeWhile sl tr inc (S k) (sc + inc)),
     moved s (backend s) [] [] sc).
Proof.
  intros Hk. unfold proceed. cbn [counter sw_tries sw_sleep sw_increment sleep_current].
  destruct (Nat.eqb_spec (S k) 1) as [E|E]; [lia|].
  destruct (Nat.ltb_spec tr (S k)) as [H|H]; [lia|].
  rewrite bind_run, sleep_run. reflexivity.
Qed.

Lemma proceed_gives_up (sl inc sc : Z) (tr k : nat) (s : state W) :
  (1 <= k)%nat -> (tr <= k)%nat ->
  proceed (mkSafeWhile sl tr inc k sc) s = (Raise MaxWhileTries, s).
Proof. intros H1 H2. now apply proceed_stop. Qed.

(** [n] retried failures in a row, seen from inside the loop. *)
Lemma retry_loop_skips (n : nat) :
  forall fuel k sc tries (s : state W) w,
    (1 <= k)%nat -> (k + n <= retry_tries)%nat -> (n <= fuel)%nat ->
    transient_failures f n (backend s) = Some w ->
    retry_loop fuel (mkSafeWhile 1 retry_tries 1 k sc) tries c f s
    = retry_loop (fuel - n)
                 (mkSafeWhile 1 retry_tries 1 (k + n) (sc + Z.of_nat n))
                 (tries + n) c f
                 (moved s w (repeat c n) [] (waits sc 1 n)).
Proof.
  induction n as [|n IH]; intros fuel k sc tries s w Hk Hbudget Hfuel Hfail.
  - cbn [transient_failures] in Hfail. injection Hfail as <-.
    cbn [repeat waits]. rewrite moved_nothing, Nat.sub_0_r, !Nat.add_0_r.
    cbn [Z.of_nat]. now rewrite Z.add_0_r.
  - destruct fuel as [|fuel]; [lia|].
    cbn [transient_failures] in Hfail.
    rewrite retry_loop_step, proceed_sleeps by (unfold retry_tries in *; lia).
    cbn [backend moved].
    destruct (f (backend s)) as [[r0|e] w1]; [discriminate|].
    destruct (RETRY_EXCEPTIONS e); [|discriminate].
    rewrite (IH fuel (S k) (sc + 1) (S tries) _ w) by (cbn [backend moved]; auto; lia).
    rewrite !moved_moved. cbn [Nat.sub app repeat waits].
    replace (S k + n)%nat with (k + S n)%nat by lia.
    replace (S tries + n)%nat with (tries + S n)%nat by lia.
    replace (sc + 1 + Z.of_nat n) with (sc + Z.of_nat (S n)) by lia.
    replace (sc + 0 + waits (sc + 1) 1 n) with (sc + waits (sc + 1) 1 n) by lia.
    reflexivity.
Qed.

(** The same, from the call of [retry]. *)
Lemma retry_skips (n : nat) (s : state W) (w : W) :
  (n < retry_tries)%nat ->
  transient_failures f (S n) (backend s) = Some w ->
  retry c f s
  = retry_loop (retry_tries - n)
               (mkSafeWhile 1 retry_tries 1 (S n) (1 + Z.of_nat n))
               (S n) c f
               (moved s w (repeat c (S n)) [] (waits 1 1 n)).
Proof.
  intros Hn Hfail. unfold retry, new_safe_while.
  rewrite retry_loop_step, proceed_first.
  cbn [transient_failures] in Hfail.
  destruct (f (backend s)) as [[r0|e] w1]; [discriminate|].
  destruct (RETRY_EXCEPTIONS e); [|discriminate].
  rewrite (@retry_loop_skips n retry_tries 1%nat 1 1%nat _ w)
    by (cbn [backend moved]; auto; unfold retry_tries in *; lia).
  rewrite moved_moved. cbn [app]. rewrite Z.add_0_l.
  replace (1 + n)%nat with (S n) by lia. reflexivity.
Qed.

End RetryTiming.

(** X1: whatever the operation does, [retry] invokes it at least once
    and at most 24 times, makes no other call, only appends to the
    log, and leaves the cached catalogs and the node attributes as
    they were. *)
Theorem retry_is_bounded :
  forall W A (c : call) (f : op W A) (s : state W),
    exists k ls,
      (1 <= k <= 24)%nat
      /\ calls (snd (retry c f s)) = (calls s ++ repeat c k)%list
      /\ logged (snd (retry c f s)) = (logged s ++ ls)%list
      /\ _images (snd (retry c f s)) = _images s
      /\ _sizes (snd (retry c f s)) = _sizes s
      /\ _networks (snd (retry c f s)) = _networks s
      /\ _security_groups (snd (retry c f s)) = _security_groups s
      /\ _node (snd (retry c f s)) = _node s
      /\ ips (snd (retry c f s)) = ips s.
Proof.
  intros W A c f s.
  destruct (retry_moves c f s) as (r & w & k & ls & t & Hrun & Hk).
  exists k, ls. rewrite Hrun. cbn [snd moved calls logged _images _sizes
    _networks _security_groups _node ips].
  unfold retry_tries in Hk. repeat split; lia.
Qed.

(** X2: an operation that keeps raising the rate-limit error is given
    up after exactly 24 invocations: [retry] raises MaxWhileTries,
    having waited 1 + 2 + ... + 23 = 276 seconds and logged nothing. *)
Theorem retry_gives_up :
  forall W A (c : call) (f : op W A) (s : state W) (w : W),
    transient_failures f 24 (backend s) = Some w ->
    exists s',
      retry c f s = (Raise MaxWhileTries, s')
      /\ backend s' = w
      /\ calls s' = (calls s ++ repeat c 24)%list
      /\ logged s' = logged s
      /\ slept s' = slept s + 276.
Proof.
  intros W A c f s w Hfail.
  rewrite (@retry_skips W A c f 23 s w) by (auto; unfold retry_tries; lia).
  change (retry_tries - 23)%nat with 1%nat.
  rewrite retry_loop_step, proceed_gives_up by (unfold retry_tries; lia).
  eexists. split; [reflexivity|].
  cbn [moved backend calls logged slept]. rewrite app_nil_r.
  repeat split.
Qed.

Lemma retry_gives_up_witness :
  exists s',
    retry Call_list_nodes always_limited (fresh 0%nat)
    = (Raise MaxWhileTries, s')
    /\ backend s' = 24%nat
    /\ calls s' = ([] ++ repeat Call_list_nodes 24)%list
    /\ logged s' = []
    /\ slept s' = 0 + 276.
Proof.
  apply (retry_gives_up Call_list_nodes always_limited (fresh 0%nat)).
  reflexivity.
Defined.

(** X3: the waits of [retry] grow by one second each: when the
    operation ends the loop at its (N+1)-th invocation, after N
    rate-limit errors, [retry] has slept N (N + 1) / 2 seconds in
    all. *)
Theorem retry_backoff_is_linear :
  forall W A (c : call) (f : op W A) (s : state W) (N : nat) w r w',
    (N + 1 <= retry_tries)%nat ->
    transient_failures f N (backend s) = Some w ->
    f w = (r, w') ->
    final r ->
    fst (retry c f s) = r
    /\ slept (snd (retry c f s))
       = slept s + Z.of_nat N * (Z.of_nat N + 1) / 2.
Proof.
  intros W A c f s N w r w' HN Hfail Hf Hfinal.
  destruct N as [|n].
  - cbn [transient_failures] in Hfail. injection Hfail as <-.
    unfold retry, new_safe_while. rewrite retry_loop_step, proceed_first, Hf.
    destruct r as [a|e]; cbn [final] in Hfinal.
    + cbn [fst snd moved slept]. split; [reflexivity|]. cbn. lia.
    + rewrite Hfinal. cbn [fst snd moved slept]. split; [reflexivity|]. cbn. lia.
  - rewrite (@retry_skips W A c f n s w) by (auto; unfold retry_tries in *; lia).
    assert (Hfuel : exists fuel, (retry_tries - n)%nat = S fuel)
      by (exists (retry_tries - S n)%nat; unfold retry_tries in *; lia).
    destruct Hfuel as [fuel ->].
    rewrite retry_loop_step, proceed_sleeps by (unfold retry_tries in *; lia).
    cbn [backend moved]. rewrite Hf.
    pose proof (waits_closed 1 1 n) as Hw.
    assert (Htotal : waits 1 1 n + (1 + Z.of_nat n) + 0
                     = Z.of_nat (S n) * (Z.of_nat (S n) + 1) / 2).
    { apply Z.div_unique_exact; [lia|]. nia. }
    destruct r as [a|e]; cbn [final] in Hfinal.
    + cbn [fst snd moved slept]. split; [reflexivity|]. lia.
    + rewrite Hfinal. cbn [fst snd moved slept]. split; [reflexivity|]. lia.
Qed.

Lemma retry_backoff_is_linear_witness :
  fst (retry Call_list_nodes (limited_then (Ok true)) (fresh 5%nat)) = Ok true
  /\ slept (snd (retry Call_list_nodes (limited_then (Ok true)) (fresh 5%nat)))
     = 0 + 5 * (5 + 1) / 2.
Proof.
  apply (@retry_backoff_is_linear nat bool Call_list_nodes
           (limited_then (Ok true)) (fresh 5%nat) 5%nat 0%nat (Ok true) 0%nat).
  - unfold retry_tries. lia.
  - reflexivity.
  - reflexivity.
  - exact I.
Defined.

(* ================================================================== *)
(** * The cached catalogs of the provider *)

Section CatalogFacts.

Context {W : Type} (p : Provider W).

Lemma images_first (s : state W) :
  _images s = None ->
  images p s
  = match retry Call_list_images (list_images (driver p)) s with
    | (Ok x, s1) => (Ok x, with_images x s1)
    | (Raise e, s1) => (Raise e, s1)
    end.
Proof.
  intros H. unfold images. rewrite bind_run. unfold get at 1. rewrite H.
  rewrite bind_run. now destruct (retry _ _ s) as [[x|e] s1].
Qed.

Lemma images_cached (s : state W) (x : list Image) :
  _images s = Some x -> images p s = (Ok x, s).
Proof.
  intros H. unfold images. rewrite bind_run. unfold get at 1. now rewrite H.
Qed.

Lemma sizes_first (s : state W) :
  _sizes s = None ->
  sizes p s
  = match retry Call_list_sizes (list_sizes (driver p)) s with
    | (Ok all_sizes, s1) =>
        let kept :=
          if String.eqb (exclude_pattern p) "" then all_sizes
          else filter (fun x => negb (re_match p (exclude_pattern p) (size_name x)))
                      all_sizes in
        (Ok kept, with_sizes kept s1)
    | (Raise e, s1) => (Raise e, s1)
    end.
Proof.
  intros H. unfold sizes. rewrite bind_run. unfold get at 1. rewrite H.
  rewrite bind_run. now destruct (retry _ _ s) as [[x|e] s1].
Qed.

Lemma networks_first (s : state W) :
  _networks s = None ->
  networks p s
  = match retry Call_ex_list_networks (ex_list_networks (driver p)) s with
    | (Ok x, s1) => (Ok x, with_networks x s1)
    | (Raise AttributeError, s1) =>
        (Ok [], with_networks [] (moved s1 (backend s1) [] [networks_warning] 0))
    | (Raise e, s1) => (Raise e, s1)
    end.
Proof.
  intros H. unfold networks. rewrite bind_run. unfold get at 1. rewrite H.
  rewrite bind_run. unfold try_except at 1. rewrite bind_run.
  destruct (retry _ _ s) as [[x|e] s1].
  - reflexivity.
  - destruct e; cbn [is_AttributeError]; try reflexivity.
    rewrite bind_run, log_run. reflexivity.
Qed.

Lemma networks_cached (s : state W) (x : list Network) :
  _networks s = Some x -> networks p s = (Ok x, s).
Proof.
  intros H. unfold networks. rewrite bind_run. unfold get at 1. now rewrite H.
Qed.

Lemma provider_security_groups_first (s : state W) :
  _security_groups s = None ->
  provider_security_groups p s
  = match retry Call_ex_list_security_groups
                (ex_list_security_groups (driver p)) s with
    | (Ok x, s1) => (Ok x, with_security_groups x s1)
    | (Raise AttributeError, s1) =>
        (Ok [], with_security_groups []
                  (moved s1 (backend s1) [] [security_groups_warning] 0))
    | (Raise e, s1) => (Raise e, s1)
    end.
Proof.
  intros H. unfold provider_security_groups. rewrite bind_run.
  unfold get at 1. rewrite H.
  rewrite bind_run. unfold try_except at 1. rewrite bind_run.
  destruct (retry _ _ s) as [[x|e] s1].
  - reflexivity.
  - destruct e; cbn [is_AttributeError]; try reflexivity.
    rewrite bind_run, log_run. reflexivity.
Qed.

End CatalogFacts.

(** X4: the image catalog is fetched at most once per provider: the
    first access is one retried listing; after a successful access
    every further access answers the same list without any call or
    other change; a failed listing is not cached. *)
Theorem images_are_fetched_once :
  forall W (p : Provider W) (s : state W),
    (_images s = None ->
     exists k, (1 <= k <= 24)%nat
               /\ calls (snd (images p s))
                  = (calls s ++ repeat Call_list_images k)%list)
    /\ (forall x s1, images p s = (Ok x, s1) -> images p s1 = (Ok x, s1))
    /\ (forall e s1, images p s = (Raise e, s1) ->
                     _images s = None /\ _images s1 = None).
Proof.
  intros W p s.
  destruct (_images s) as [x0|] eqn:Hc.
  - rewrite (images_cached p s Hc). split; [discriminate | split].
    + intros x s1 [= <- <-]. now apply images_cached.
    + discriminate.
  - rewrite (images_first p s Hc).
    destruct (retry_moves Call_list_images (list_images (driver p)) s)
      as (r & w & k & ls & t & Hrun & Hk).
    rewrite Hrun. unfold retry_tries in Hk. destruct r as [x|e].
    + split; [intros _; now exists k | split]; [|discriminate].
      intros x' s1 [= <- <-]. now apply images_cached.
    + split; [intros _; now exists k | split]; [discriminate|].
      intros e' s1 [= <- <-]. cbn [moved _images]. now split.
Qed.

Lemma images_are_fetched_once_witness :
  let p := bare_provider None in
  let q := mkProvider "openstack" images_refused None None starts_with_win in
  let s := fresh tt in
  (exists k, (1 <= k <= 24)%nat
             /\ calls (snd (images p s)) = ([] ++ repeat Call_list_images k)%list)
  /\ images p (snd (images p s))
     = (Ok [mkImage 1 "Ubuntu 18.04 server"], snd (images p s))
  /\ (_images s = None /\ _images (snd (images q s)) = None).
Proof.
  intros p q s. destruct (images_are_fetched_once p s) as (H1 & H2 & _).
  destruct (images_are_fetched_once q s) as (_ & _ & H3).
  split; [now apply H1 | split; [now apply H2|]].
  now apply (H3 (BackendError "forbidden")).
Defined.

(** X5: a driver without a listing of networks (AttributeError) does
    not fail the provider: [networks] warns, answers the empty list
    and caches it, so that no later access asks the driver again; any
    other exception of the listing comes out as it is. *)
Theorem networks_degrade_to_empty :
  forall W (p : Provider W) (s s1 : state W) (e : exn),
    _networks s = None ->
    retry Call_ex_list_networks (ex_list_networks (driver p)) s = (Raise e, s1) ->
    match e with
    | AttributeError =>
        exists s2,
          networks p s = (Ok [], s2)
          /\ calls s2 = calls s1
          /\ logged s2 = (logged s1 ++ [networks_warning])%list
          /\ networks p s2 = (Ok [], s2)
    | _ => networks p s = (Raise e, s1)
    end.
Proof.
  intros W p s s1 e Hc Hrun. rewrite (networks_first p s Hc), Hrun.
  destruct e; try reflexivity.
  eexists. split; [reflexivity|]. cbn [with_networks moved calls logged].
  rewrite app_nil_r. repeat split.
Qed.

Lemma networks_degrade_to_empty_witness :
  exists s2,
    networks (bare_provider None) (fresh tt) = (Ok [], s2)
    /\ calls s2 = [Call_ex_list_networks]
    /\ logged s2 = ([] ++ [networks_warning])%list
    /\ networks (bare_provider None) s2 = (Ok [], s2).
Proof.
  exact (@networks_degrade_to_empty unit (bare_provider None) (fresh tt)
           (snd (retry Call_ex_list_networks
                       (ex_list_networks (driver (bare_provider None)))
                       (fresh tt)))
           AttributeError eq_refl eq_refl).
Defined.

(** X6: with a driver that cannot list security groups the catalog
    degrades to the empty list, and then every configured group name
    is fatal: the provisioner's [security_groups] raises the "no
    security groups found" error for the first name. *)
Theorem unlisted_security_groups_are_fatal :
  forall W (self : Provisioner W) (s s1 : state W) (n : string) (names : list string),
    _security_groups s = None ->
    conf_security_groups (provider self) = Some (n :: names) ->
    retry Call_ex_list_security_groups
          (ex_list_security_groups (driver (provider self))) s
    = (Raise AttributeError, s1) ->
    fst (security_groups self s)
    = Raise (RuntimeError ["No security groups found with name '" ++ n ++ "'"])
    /\ calls (snd (security_groups self s)) = calls s1
    /\ _security_groups (snd (security_groups self s)) = Some [].
Proof.
  intros W self s s1 n names Hc Hconf Hrun.
  unfold security_groups. rewrite Hconf, bind_run.
  rewrite (provider_security_groups_first (provider self) s Hc), Hrun.
  cbn [lift Select.security_groups Select.groups_loop Select.group_matches filter
       fst snd with_security_groups moved calls _security_groups].
  rewrite app_nil_r. repeat split.
Qed.

Lemma unlisted_security_groups_are_fatal_witness :
  let self := bare_self (Some ["web"; "db"]) in
  fst (security_groups self (fresh tt))
  = Raise (RuntimeError ["No security groups found with name '" ++ "web" ++ "'"])
  /\ calls (snd (security_groups self (fresh tt))) = [Call_ex_list_security_groups]
  /\ _security_groups (snd (security_groups self (fresh tt))) = Some [].
Proof.
  intros self.
  exact (@unlisted_security_groups_are_fatal unit self (fresh tt)
           (snd (retry Call_ex_list_security_groups
                       (ex_list_security_groups (driver (provider self)))
                       (fresh tt)))
           "web" ["db"] eq_refl eq_refl eq_refl).
Defined.

(* ================================================================== *)
(** * More on the selectors *)

Section MoreSizeFacts.

#[local] Arguments Select.key_lt : simpl never.

Lemma select_size_member (l : list Size) (r d c : Z) (sz : Size) :
  Select.size l r d c = Ok sz ->
  In sz l /\ Select.good_size r d c sz = true.
Proof.
  unfold Select.size. intros H.
  pose proof (sorted_head (filter (Select.good_size r d c) l)) as Hh.
  destruct (Select.sorted _ _) as [|h t]; [discriminate|].
  injection H as <-. destruct Hh as [Hin _]. now apply filter_In in Hin.
Qed.

Lemma hd_insert_by (x : Size) (acc : list Size) :
  hd_error (Select.insert_by Select.size_key x acc) = pick (hd_error acc) x.
Proof.
  destruct acc as [|y acc]; [reflexivity|]. cbn [Select.insert_by hd_error pick].
  now destruct (Select.key_lt (Select.size_key x) (Select.size_key y)).
Qed.

Lemma hd_sorted_from (l : list Size) :
  forall acc,
    hd_error (fold_left (fun a x => Select.insert_by Select.size_key x a) l acc)
    = fold_left pick l (hd_error acc).
Proof.
  induction l as [|x l IH]; intros acc; [reflexivity|].
  cbn [fold_left]. now rewrite IH, hd_insert_by.
Qed.

Lemma strictly_below_trans (a b c : Size) :
  ~ lex_le b a -> ~ lex_le c b -> ~ lex_le c a.
Proof. unfold lex_le. lia. Qed.

Lemma below_strictly_trans (a b c : Size) :
  lex_le b c -> ~ lex_le b a -> ~ lex_le c a.
Proof. unfold lex_le. lia. Qed.

(** Where the winner of [pick] comes from. *)
Lemma pick_from (l : list Size) :
  forall b m,
    fold_left pick l (Some b) = Some m ->
    (m = b /\ forall x, In x l -> lex_le b x)
    \/ (exists pre post,
           l = (pre ++ m :: post)%list
           /\ ~ lex_le b m
           /\ (forall x, In x pre -> ~ lex_le x m)
           /\ (forall x, In x post -> lex_le m x)).
Proof.
  induction l as [|x l IH]; intros b m H.
  - injection H as <-. left. split; [reflexivity | now intros x []].
  - cbn [fold_left pick] in H.
    destruct (Select.key_lt (Select.size_key x) (Select.size_key b)) eqn:E.
    + apply key_lt_lex in E. right.
      destruct (IH x m H) as [[-> Hall]|(pre & post & -> & Hm & Hpre & Hpost)].
      * exists [], l. repeat split; auto; try (now intros y []).
      * exists (x :: pre), post. split; [reflexivity|]. split.
        -- eapply strictly_below_trans; eassumption.
        -- split; [|exact Hpost]. intros y [<-|Hy]; auto.
    + apply key_lt_false in E.
      destruct (IH b m H) as [[-> Hall]|(pre & post & -> & Hm & Hpre & Hpost)].
      * left. split; [reflexivity|]. intros y [<-|Hy]; auto.
      * right. exists (x :: pre), post. split; [reflexivity|].
        split; [exact Hm|]. split; [|exact Hpost].
        intros y [<-|Hy]; auto. eapply below_strictly_trans; eassumption.
Qed.

End MoreSizeFacts.

(** X7: with an exclusion pattern in force (the default "win-.*"
    when the provider configures none), a size whose name matches it
    is never selected: the first access filters the catalog before
    the selection looks at it. *)
Theorem size_is_never_an_excluded_one :
  forall W (self : Provisioner W) (s s1 : state W) (sz : Size),
    _sizes s = None ->
    exclude_pattern (provider self) <> "" ->
    size self s = (Ok sz, s1) ->
    re_match (provider self) (exclude_pattern (provider self)) (size_name sz)
    = false
    /\ exists kept, _sizes s1 = Some kept /\ In sz kept.
Proof.
  intros W self s s1 sz Hc Hpat H.
  unfold size, item, as_int in H. cbv beta iota delta [bind lift] in H.
  destruct (Conf.item (conf self) "machine") as [machine|]; [|discriminate].
  destruct (Conf.item machine "ram") as [v1|]; [|discriminate].
  destruct (Conf.as_int v1) as [r|]; [|discriminate].
  destruct (Conf.item machine "disk") as [v2|]; [|discriminate].
  destruct (Conf.as_int v2) as [d|]; [|discriminate].
  destruct (Conf.item machine "cpus") as [v3|]; [|discriminate].
  destruct (Conf.as_int v3) as [c|]; [|discriminate].
  rewrite (sizes_first (provider self) s Hc) in H.
  destruct (retry _ _ s) as [[all|e] s0]; [|discriminate]. cbv zeta in H.
  apply String.eqb_neq in Hpat. rewrite Hpat in H.
  injection H as Hsel <-.
  apply select_size_member in Hsel as [Hin _].
  split.
  - apply filter_In in Hin as [_ Hkeep]. now apply negb_true_iff in Hkeep.
  - eexists. split; [reflexivity | exact Hin].
Qed.

Lemma size_is_never_an_excluded_one_witness :
  let self := bare_self None in
  fst (size self (fresh tt)) = Ok (mkSize "m1.large" 8192 40 2)
  /\ starts_with_win "win-.*" "m1.large" = false.
Proof.
  intros self. split; [reflexivity|].
  apply (@size_is_never_an_excluded_one unit self (fresh tt)
           (snd (size self (fresh tt))) (mkSize "m1.large" 8192 40 2)).
  - reflexivity.
  - discriminate.
  - reflexivity.
Defined.

(** X8: the sort of [size] is stable, so among adequate sizes of
    equal (ram, disk, vcpus) the one listed first wins: every adequate
    size that the catalog lists before the selected one is strictly
    larger, every one listed after it is at least as large. *)
Theorem size_prefers_the_earlier_entry :
  forall (all_sizes : list Size) (ram_ disk_ cpu : Z) (sz : Size),
    Select.size all_sizes ram_ disk_ cpu = Ok sz ->
    exists before after,
      filter (Select.good_size ram_ disk_ cpu) all_sizes
      = (before ++ sz :: after)%list
      /\ (forall x, In x before -> ~ lex_le x sz)
      /\ (forall x, In x after -> lex_le sz x).
Proof.
  intros all r d c sz H. unfold Select.size, Select.sorted in H.
  pose proof (hd_sorted_from (filter (Select.good_size r d c) all) []) as Hh.
  destruct (fold_left _ (filter (Select.good_size r d c) all) []) as [|h t];
    [discriminate|].
  injection H as ->. cbn [hd_error] in Hh. symmetry in Hh.
  destruct (filter (Select.good_size r d c) all) as [|x l]; [discriminate|].
  cbn [fold_left pick] in Hh.
  destruct (pick_from l x Hh) as [[-> Hall]|(pre & post & -> & Hm & Hpre & Hpost)].
  - exists [], l. repeat split; auto; try (now intros y []).
  - exists (x :: pre), post. split; [reflexivity|]. split; [|exact Hpost].
    intros y [<-|Hy]; auto.
Qed.

Lemma size_prefers_the_earlier_entry_witness :
  exists before after,
    filter (Select.good_size 8 20 2)
           [mkSize "A" 4 10 1; mkSize "C" 8 40 2; mkSize "B1" 8 20 2;
            mkSize "B2" 8 20 2]
    = (before ++ mkSize "B1" 8 20 2 :: after)%list
    /\ (forall x, In x before -> ~ lex_le x (mkSize "B1" 8 20 2))
    /\ (forall x, In x after -> lex_le (mkSize "B1" 8 20 2) x).
Proof.
  apply (size_prefers_the_earlier_entry
           [mkSize "A" 4 10 1; mkSize "C" 8 40 2; mkSize "B1" 8 20 2;
            mkSize "B2" 8 20 2] 8 20 2).
  reflexivity.
Defined.

Section MoreGroupFacts.

Variable groups : list SecurityGroup.

Lemma group_matches_named (n : string) (g : SecurityGroup) :
  In g (Select.group_matches groups n) -> In g groups /\ group_name g = n.
Proof.
  unfold Select.group_matches. intros H. apply filter_In in H as [Hin Hn].
  now apply String.eqb_eq in Hn.
Qed.

Lemma groups_loop_inv (names : list string) :
  forall acc,
    match Select.groups_loop groups names acc with
    | Ok r =>
        exists found,
          r = (acc ++ found)%list
          /\ map group_name found = names
          /\ Forall (fun g => In g groups) found
    | Raise e =>
        exists n, In n names
                  /\ ((Select.group_matches groups n = []
                       /\ e = Select.no_group_error n)
                      \/ ((2 <= List.length (Select.group_matches groups n))%nat
                          /\ e = Select.many_groups_error n))
    end.
Proof.
  induction names as [|n names IH]; intros acc; cbn [Select.groups_loop].
  - exists []. now rewrite app_nil_r.
  - destruct (Select.group_matches groups n) as [|g [|g' more]] eqn:E.
    + exists n. split; [now left | left; now split].
    + specialize (IH (acc ++ [g])%list).
      destruct (Select.groups_loop groups names (acc ++ [g])) as [r|e].
      * destruct IH as (found & -> & Hnames & Hin).
        exists (g :: found). rewrite <- app_assoc. split; [reflexivity|].
        assert (Hg : In g (Select.group_matches groups n))
          by (rewrite E; now left).
        apply group_matches_named in Hg as [Hg1 Hg2].
        split; [cbn [map]; congruence | now constructor].
      * destruct IH as (m & Hm & Hcase). exists m. split; [now right|].
        exact Hcase.
    + exists n. split; [now left|]. right. rewrite E. cbn [List.length].
      split; [lia | reflexivity].
Qed.

End MoreGroupFacts.

(** X9: a resolution that succeeds answers one group per configured
    name, in the order of the names, each taken from the catalog and
    carrying that very name; a resolution that fails blames a
    configured name that has no group, or several groups, of that
    name. *)
Theorem security_groups_answer_the_names :
  forall (groups : list SecurityGroup) (names : list string),
    match Select.security_groups (Some names) groups with
    | Ok None => False
    | Ok (Some r) =>
        map group_name r = names /\ Forall (fun g => In g groups) r
    | Raise e =>
        exists n,
          In n names
          /\ ((filter (fun g => String.eqb (group_name g) n) groups = []
               /\ e = RuntimeError
                        ["No security groups found with name '" ++ n ++ "'"])
              \/ ((2 <= List.length
                          (filter (fun g => String.eqb (group_name g) n) groups))%nat
                  /\ e = RuntimeError
                           ["More than one security group found with name '"
                              ++ n ++ "'"]))
    end.
Proof.
  intros groups names. unfold Select.security_groups.
  pose proof (groups_loop_inv groups names []) as H.
  destruct (Select.groups_loop groups names []) as [r|e].
  - destruct H as (found & -> & Hn & Hin). now split.
  - exact H.
Qed.

(* ================================================================== *)
(** * More on volumes: names, provisioning, the sweep *)

Section DecimalValue.

Lemma digit_value_digit (n : nat) : digit_value (PyStr.digit n) = (n mod 10)%nat.
Proof.
  unfold digit_value, PyStr.digit.
  assert (n mod 10 < 10)%nat by (apply Nat.mod_upper_bound; lia).
  rewrite nat_ascii_embedding by lia. lia.
Qed.

Lemma decimal_value_digits (fuel : nat) :
  forall n acc,
    (n < fuel)%nat ->
    decimal_value (PyStr.digits fuel n acc)
    = (n * 10 ^ String.length acc + decimal_value acc)%nat.
Proof.
  induction fuel as [|fuel IH]; intros n acc Hn; [lia|].
  cbn [PyStr.digits]. destruct (Nat.ltb_spec n 10) as [Hlt|Hge].
  - cbn [decimal_value]. rewrite digit_value_digit, Nat.mod_small by exact Hlt.
    reflexivity.
  - assert (n / 10 < n)%nat by (apply Nat.div_lt; lia).
    rewrite IH by lia. cbn [decimal_value String.length].
    rewrite digit_value_digit, Nat.pow_succ_r'.
    pose proof (Nat.div_mod_eq n 10) as Hdm.
    set (q := (n / 10)%nat) in *. set (m := (n mod 10)%nat) in *.
    set (p := (10 ^ String.length acc)%nat). nia.
Qed.

Lemma decimal_value_str_nat (n : nat) : decimal_value (PyStr.str_nat n) = n.
Proof.
  unfold PyStr.str_nat. rewrite decimal_value_digits by lia.
  cbn [String.length decimal_value Nat.pow]. lia.
Qed.

Lemma decimal_value_zeros (k : nat) (s : string) :
  decimal_value (PyStr.zeros k ++ s) = decimal_value s.
Proof. induction k as [|k IH]; [reflexivity|]. cbn. exact IH. Qed.

Lemma decimal_value_fmt_0d (w : nat) (i : nat) :
  decimal_value (PyStr.fmt_0d w (Z.of_nat i)) = i.
Proof.
  rewrite fmt_0d_nonneg, decimal_value_zeros, str_nonneg by lia.
  now rewrite decimal_value_str_nat, Nat2Z.id.
Qed.

Lemma prefix_app_more (a b c : string) :
  String.prefix (a ++ b) (a ++ b ++ c) = true.
Proof. rewrite <- app_assoc_str. apply prefix_app. Qed.

Lemma app_inv_head_str (p a b : string) : p ++ a = p ++ b -> a = b.
Proof. induction p as [|c p IH]; cbn; [auto | intros [= H]; auto]. Qed.

Lemma NoDup_map_on {A B} (g : A -> B) (l : list A) :
  (forall x y, In x l -> In y l -> g x = g y -> x = y) ->
  NoDup l -> NoDup (map g l).
Proof.
  intros Hinj Hl. induction Hl as [|x l Hx Hl IH]; cbn [map]; constructor.
  - intros Hin. apply in_map_iff in Hin as (y & Hy & Hyl).
    assert (y = x) by (apply Hinj; [now right | now left | exact Hy]).
    now subst.
  - apply IH. intros a b Ha Hb. apply Hinj; now right.
Qed.

End DecimalValue.

(** X10: the names of the volumes of one node are pairwise distinct,
    there are as many as the configured count (none for a count of
    zero or less), and the number written after the underscore of the
    i-th name is i. *)
Theorem volume_names_are_distinct :
  forall W (self : Provisioner W) (vol_count : Z),
    List.length (vol_names self vol_count) = Z.to_nat vol_count
    /\ NoDup (vol_names self vol_count)
    /\ (forall i : nat,
           (i < Z.to_nat vol_count)%nat ->
           exists suffix,
             nth_error (vol_names self vol_count) i
             = Some (name self ++ "_" ++ suffix)
             /\ decimal_value suffix = i).
Proof.
  intros W self vol_count. unfold vol_names, range.
  set (w := String.length (PyStr.str (vol_count - 1))).
  rewrite !map_map. split; [|split].
  - now rewrite length_map, length_seq.
  - apply NoDup_map_on; [|apply seq_NoDup].
    intros a b _ _ H.
    apply app_inv_head_str in H. apply (app_inv_head_str "_") in H.
    apply (f_equal decimal_value) in H.
    now rewrite !decimal_value_fmt_0d in H.
  - intros i Hi. exists (PyStr.fmt_0d w (Z.of_nat i)).
    split; [|apply decimal_value_fmt_0d].
    rewrite nth_error_map, nth_error_seq.
    destruct (Nat.ltb_spec i (Z.to_nat vol_count)); [reflexivity | lia].
Qed.

Lemma volume_names_are_distinct_witness :
  exists suffix,
    nth_error (vol_names (Mock.self None true) 12) 7
    = Some (name (Mock.self None true) ++ "_" ++ suffix)
    /\ decimal_value suffix = 7%nat.
Proof.
  apply (proj2 (proj2 (volume_names_are_distinct (Mock.self None true) 12))).
  cbn. lia.
Defined.

(** X11: a node also owns, by its prefix, the volumes of every node
    whose name is this node's name, an underscore and more: the
    filter of the sweep keeps all volumes generated for such a
    node. *)
Theorem longer_node_names_are_swept_too :
  forall W (self other : Provisioner W) (rest : string) (vol_count : Z)
         (all_volumes : list Volume) (vol : Volume),
    name other = name self ++ "_" ++ rest ->
    In (volume_name vol) (vol_names other vol_count) ->
    In vol all_volumes ->
    In vol (our_volumes self all_volumes).
Proof.
  intros W self other rest vol_count all vol Hname Hvol Hin.
  unfold our_volumes. apply filter_In. split; [exact Hin|].
  unfold vol_names in Hvol. apply in_map_iff in Hvol as (i & Hi & _).
  rewrite <- Hi, Hname. unfold PyStr.startswith.
  rewrite app_assoc_str.
  exact (prefix_app_more (name self) "_" (rest ++ "_" ++ PyStr.fmt_0d _ i)).
Qed.

Lemma longer_node_names_are_swept_too_witness :
  let self := Mock.self None true in
  let other := OpenStackProvisioner (provider self) "vm07_db" "ubuntu" "18.04"
                                    (Some Mock.request) None "" in
  vol_names other 3 = ["vm07_db_0"; "vm07_db_1"; "vm07_db_2"]
  /\ In (mkVolume 9 "vm07_db_1")
        (our_volumes self [mkVolume 9 "vm07_db_1"; mkVolume 1 "vm070_0"]).
Proof.
  intros self other. split; [reflexivity|].
  apply (@longer_node_names_are_swept_too _ self other "db" 3).
  - reflexivity.
  - cbv. tauto.
  - now left.
Defined.

Section MoreVolumeFacts.

Context {W : Type} (self : Provisioner W).

Let drv : Driver W := driver (provider self).

Lemma attempts_release (vols : list Volume) (cs : list call) :
  attempts vols cs ->
  forall c, In c cs -> exists v, In v vols /\ releases c v.
Proof.
  induction 1 as [|vol vols k m cs Hk Hm Hrest IH]; intros c Hc; [now destruct Hc|].
  apply in_app_or in Hc as [Hc|Hc].
  - apply repeat_spec in Hc. exists vol. split; [now left | now left].
  - apply in_app_or in Hc as [Hc|Hc].
    + apply repeat_spec in Hc. exists vol. split; [now left | now right].
    + destruct (IH c Hc) as (v & Hv & Hr). exists v. split; [now right | exact Hr].
Qed.

Lemma create_volumes_unfolded (s : state W) volumes vol_count vol_size :
  Conf.item (conf self) "volumes" = Ok volumes ->
  Conf.item volumes "count" = Ok (Conf.Num vol_count) ->
  Conf.item volumes "size" = Ok vol_size ->
  _create_volumes self s
  = match for_each (vol_names self vol_count)
                   (create_and_attach self vol_size) s with
    | (Ok _, s1) => (Ok true, s1)
    | (Raise e, s1) =>
        (Ok false, moved s1 (backend s1) [] [create_failed e] 0)
    end.
Proof.
  intros Hv Hc Hs.
  unfold _create_volumes, item, as_int, try_except.
  cbv beta iota delta [bind lift].
  rewrite Hv; cbv beta iota. rewrite Hc; cbv beta iota delta [Conf.as_int].
  rewrite Hs; cbv beta iota.
  destruct (for_each _ _ s) as [[[]|e] s1]; [reflexivity|].
  cbn [Exception]. unfold log_exception. now rewrite log_run.
Qed.

End MoreVolumeFacts.

(** X12: a volume count of zero (the default) or less provisions
    nothing: [_create_volumes] answers True without a call, a log
    record or any other change. *)
Theorem no_volumes_no_calls :
  forall W (self : Provisioner W) (s : state W) volumes vol_count vol_size,
    Conf.item (conf self) "volumes" = Ok volumes ->
    Conf.item volumes "count" = Ok (Conf.Num vol_count) ->
    Conf.item volumes "size" = Ok vol_size ->
    vol_count <= 0 ->
    _create_volumes self s = (Ok true, s).
Proof.
  intros W self s volumes vol_count vol_size Hv Hc Hs Hle.
  rewrite (create_volumes_unfolded self s Hv Hc Hs).
  unfold vol_names, range.
  replace (Z.to_nat vol_count) with 0%nat by lia. reflexivity.
Qed.

Lemma no_volumes_no_calls_witness :
  _create_volumes (bare_self None) (fresh tt) = (Ok true, fresh tt).
Proof.
  apply (@no_volumes_no_calls unit (bare_self None) (fresh tt)
           (Conf.Dict (Conf.DCons "count" (Conf.Num 0)
                      (Conf.DCons "size" (Conf.Num 0) Conf.DNil)))
           0 (Conf.Num 0)); [reflexivity | reflexivity | reflexivity | lia].
Defined.

(** X13: only the configuration can make [_create_volumes] raise.
    With the volume settings in place it answers True or False
    whatever the backend does, False coming with the ERROR record of
    the exception; without the "volumes" section it raises KeyError
    at once, before any call. *)
Theorem create_volumes_raises_only_for_the_configuration :
  forall W (self : Provisioner W) (s : state W),
    (forall volumes vol_count vol_size,
        Conf.item (conf self) "volumes" = Ok volumes ->
        Conf.item volumes "count" = Ok (Conf.Num vol_count) ->
        Conf.item volumes "size" = Ok vol_size ->
        (exists s', _create_volumes self s = (Ok true, s'))
        \/ (exists e s',
               _create_volumes self s
               = (Ok false, moved s' (backend s') [] [create_failed e] 0)))
    /\ (forall e,
           Conf.item (conf self) "volumes" = Raise e ->
           _create_volumes self s = (Raise e, s)).
Proof.
  intros W self s. split.
  - intros volumes vol_count vol_size Hv Hc Hs.
    rewrite (create_volumes_unfolded self s Hv Hc Hs).
    destruct (for_each _ _ s) as [[[]|e] s1].
    + left. now exists s1.
    + right. now exists e, s1.
  - intros e He. unfold _create_volumes, item.
    cbv beta iota delta [bind lift]. now rewrite He.
Qed.

Lemma create_volumes_raises_only_for_the_configuration_witness :
  let self := Mock.self (Some 0%nat) true in
  let bad := mkProvisioner (bare_provider None) "vm07" "ubuntu" "18.04"
                           (Conf.Dict Conf.DNil) "" in
  ((exists s', _create_volumes self Mock.start = (Ok true, s'))
   \/ (exists e s',
          _create_volumes self Mock.start
          = (Ok false, moved s' (backend s') [] [create_failed e] 0)))
  /\ _create_volumes bad (fresh tt) = (Raise (KeyError "volumes"), fresh tt).
Proof.
  intros self bad. split.
  - apply (proj1 (create_volumes_raises_only_for_the_configuration
                    self Mock.start)
                 (Conf.Dict (Conf.DCons "count" (Conf.Num 3)
                            (Conf.DCons "size" (Conf.Num 10) Conf.DNil)))
                 3 (Conf.Num 10)); reflexivity.
  - apply (proj2 (create_volumes_raises_only_for_the_configuration
                    bad (fresh tt))).
    reflexivity.
Defined.

(** X14: the sweep releases nothing but this node's volumes: every
    call it makes after the listing is a detach or a destroy of a
    listed volume whose name starts with the node name and an
    underscore. *)
Theorem sweep_touches_only_own_volumes :
  forall W (self : Provisioner W) (s s1 : state W) (all_volumes : list Volume),
    retry Call_list_volumes (list_volumes (driver (provider self))) s
    = (Ok all_volumes, s1) ->
    exists cs,
      calls (snd (_destroy_volumes self s)) = (calls s1 ++ cs)%list
      /\ forall c, In c cs ->
                   exists v, releases c v /\ In v all_volumes
                             /\ PyStr.startswith (volume_name v)
                                                 (name self ++ "_") = true.
Proof.
  intros W self s s1 all Hlist.
  rewrite destroy_volumes_after, Hlist.
  destruct (sweep_moves self (our_volumes self all) s1)
    as (w & cs & ls & t & Hrun & Hcs).
  rewrite Hrun. exists cs. split; [reflexivity|].
  intros c Hc. destruct (attempts_release Hcs c Hc) as (v & Hv & Hr).
  exists v. split; [exact Hr|]. unfold our_volumes in Hv.
  now apply filter_In in Hv.
Qed.

Lemma sweep_touches_only_own_volumes_witness :
  let self := Mock.self None true in
  let s := fresh (Mock.mkCloud 0 [] [mkVolume 1 "vm07_0"; mkVolume 2 "vm070_0"] 0) in
  exists cs,
    calls (snd (_destroy_volumes self s)) = ([Call_list_volumes] ++ cs)%list
    /\ forall c, In c cs ->
                 exists v, releases c v
                           /\ In v [mkVolume 1 "vm07_0"; mkVolume 2 "vm070_0"]
                           /\ PyStr.startswith (volume_name v)
                                               (name self ++ "_") = true.
Proof.
  intros self s.
  exact (@sweep_touches_only_own_volumes _ self s
           (snd (retry Call_list_volumes
                       (list_volumes (driver (provider self))) s))
           [mkVolume 1 "vm07_0"; mkVolume 2 "vm070_0"] eq_refl).
Defined.

(* ================================================================== *)
(** * More on destruction *)

(** X15: the destroy call of the node is not wrapped in [retry]: once
    the node is found and the sweep is over, [_destroy] invokes it
    exactly once and hands back whatever it gives, a rate-limit error
    included. *)
Theorem destroy_node_is_called_once :
  forall W (self : Provisioner W) (s s1 s2 : state W) (n : Node) r w,
    node self s = (Ok (Some n), s1) ->
    _destroy_volumes self (moved s1 (backend s1) [] [destroying_node n] 0)
    = (Ok tt, s2) ->
    destroy_node (driver (provider self)) n (backend s2) = (r, w) ->
    _destroy self s = (r, moved s2 w [Call_destroy_node n] [] 0).
Proof.
  intros W self s s1 s2 n r w Hnode Hsweep Hdestroy.
  rewrite (destroy_found self s Hnode). unfold destroying_node in Hsweep.
  rewrite Hsweep, invoke_run, Hdestroy. reflexivity.
Qed.

Lemma destroy_node_is_called_once_witness :
  let self := provisioner_on limited_destroy in
  let n := mkNode 7 "vm07" in
  let s := with_node n Mock.start in
  fst (_destroy self s) = Raise RateLimitReachedError
  /\ calls (snd (_destroy self s)) = [Call_list_volumes; Call_destroy_node n]
  /\ slept (snd (_destroy self s)) = 0.
Proof.
  intros self n s.
  let v := eval vm_compute in
      (snd (_destroy_volumes self
              (moved s (backend s) [] [destroying_node n] 0))) in
  pose (s2 := v).
  rewrite (@destroy_node_is_called_once _ self s s s2 n
             (Raise RateLimitReachedError) (backend s2));
    [repeat split | reflexivity | reflexivity | reflexivity].
Defined.

(** X16: when the listing of the volumes fails in [_destroy], the
    exception comes out and the node is left alone: after the lookup
    of the node nothing but the listing was called. *)
Theorem failed_listing_keeps_the_node :
  forall W (self : Provisioner W) (s s1 s2 : state W) (n : Node) (e : exn),
    node self s = (Ok (Some n), s1) ->
    retry Call_list_volumes (list_volumes (driver (provider self)))
          (moved s1 (backend s1) [] [destroying_node n] 0)
    = (Raise e, s2) ->
    _destroy self s = (Raise e, s2)
    /\ exists k, (1 <= k <= 24)%nat
                 /\ calls s2 = (calls s1 ++ repeat Call_list_volumes k)%list.
Proof.
  intros W self s s1 s2 n e Hnode Hlist.
  rewrite (destroy_found self s Hnode), destroy_volumes_after.
  unfold destroying_node in Hlist. rewrite Hlist. split; [reflexivity|].
  destruct (retry_moves Call_list_volumes (list_volumes (driver (provider self)))
              (moved s1 (backend s1) []
                     [mkLog INFO "Destroying node: %s" [ANode (Some n)]] 0))
    as (r & w & k & ls & t & Hrun & Hk).
  rewrite Hlist in Hrun. injection Hrun as _ ->.
  exists k. unfold retry_tries in Hk. split; [exact Hk|].
  cbn [moved calls]. now rewrite app_nil_r.
Qed.

Lemma failed_listing_keeps_the_node_witness :
  let self := bare_self None in
  let n := mkNode 7 "vm07" in
  let s := with_node n (fresh tt) in
  fst (_destroy self s) = Raise (BackendError "volume service is down")
  /\ calls (snd (_destroy self s)) = [Call_list_volumes].
Proof.
  intros self n s.
  destruct (@failed_listing_keeps_the_node unit self s s
              (snd (retry Call_list_volumes (list_volumes (driver (provider self)))
                          (moved s (backend s) [] [destroying_node n] 0)))
              n (BackendError "volume service is down") eq_refl eq_refl)
    as [H _].
  rewrite H. split; reflexivity.
Defined.

(* ================================================================== *)
(** * After the volumes: DNS and readiness *)

Section FinishFacts.

Context {W : Type} (self : Provisioner W).

Let drv : Driver W := driver (provider self).

Lemma finish_after_volumes (s0 s1 : state W) :
  _create_volumes self s0 = (Ok true, s1) ->
  create_volumes_and_finish self s0
  = match _update_dns self s1 with
    | (Raise e, s2) => (Raise e, s2)
    | (Ok _, s2) =>
        match _wait_for_ready self (moved s2 (backend s2) [] [] 20) with
        | (Raise e, s3) => (Raise e, s3)
        | (Ok _, s3) =>
            match node self s3 with
            | (Ok node_, s4) => (Ok (ReturnNode node_), s4)
            | (Raise e, s4) => (Raise e, s4)
            end
        end
    end.
Proof.
  intros H. unfold create_volumes_and_finish. rewrite bind_run, H.
  cbn [negb]. rewrite bind_run.
  destruct (_update_dns self s1) as [[[]|e] s2]; [|reflexivity].
  rewrite bind_run, sleep_run, bind_run.
  destruct (_wait_for_ready self _) as [[[]|e] s3]; [|reflexivity].
  rewrite bind_run. now destruct (node self s3) as [[x|e] s4].
Qed.

Lemma connect_loop_step (fuel : nat) (sw : safe_while) (s : state W) :
  connect_loop self (S fuel) sw s
  = match proceed sw s with
    | (Raise e, s0) => (Raise e, s0)
    | (Ok sw', s0) =>
        match remote_connect drv (backend s0) with
        | (Ok _, w) => (Ok tt, moved s0 w [Call_remote_connect] [] 0)
        | (Raise e, w) =>
            if not_yet_reachable e
            then connect_loop self fuel sw' (moved s0 w [Call_remote_connect] [] 0)
            else (Raise e, moved s0 w [Call_remote_connect] [] 0)
        end
    end.
Proof.
  cbn [connect_loop]. rewrite bind_run.
  destruct (proceed sw s) as [[sw'|e] s0]; [|reflexivity].
  unfold try_except. rewrite invoke_run. fold drv.
  now destruct (remote_connect drv (backend s0)) as [[[]|e] w].
Qed.

Lemma connect_loop_skips (n : nat) :
  forall fuel k (s : state W) w,
    (1 <= k)%nat -> (k + n <= 20)%nat -> (n <= fuel)%nat ->
    unreachable_failures (remote_connect drv) n (backend s) = Some w ->
    connect_loop self fuel (mkSafeWhile 6 20 0 k 6) s
    = connect_loop self (fuel - n) (mkSafeWhile 6 20 0 (k + n) 6)
                   (moved s w (repeat Call_remote_connect n) []
                          (6 * Z.of_nat n)).
Proof.
  induction n as [|n IH]; intros fuel k s w Hk Hbudget Hfuel Hfail.
  - cbn [unreachable_failures] in Hfail. injection Hfail as <-.
    cbn [repeat]. rewrite moved_nothing, Nat.sub_0_r, Nat.add_0_r. reflexivity.
  - destruct fuel as [|fuel]; [lia|].
    cbn [unreachable_failures] in Hfail.
    rewrite connect_loop_step, proceed_sleeps by lia.
    cbn [backend moved].
    destruct (remote_connect drv (backend s)) as [[r0|e] w1]; [discriminate|].
    destruct (not_yet_reachable e); [|discriminate].
    change (6 + 0) with 6.
    rewrite (IH fuel (S k) _ w) by (cbn [backend moved]; auto; lia).
    rewrite !moved_moved. cbn [Nat.sub app repeat].
    replace (S k + n)%nat with (k + S n)%nat by lia.
    replace (6 + (0 + 6 * Z.of_nat n)) with (6 * Z.of_nat (S n)) by lia.
    reflexivity.
Qed.

(** The loop of [_wait_for_ready] after [n] failed attempts. *)
Lemma connect_skips (n : nat) (s : state W) (w : W) :
  (n < 20)%nat ->
  unreachable_failures (remote_connect drv) (S n) (backend s) = Some w ->
  connect_loop self 21 (new_safe_while 6 20 0) s
  = connect_loop self (20 - n) (mkSafeWhile 6 20 0 (S n) 6)
                 (moved s w (repeat Call_remote_connect (S n)) []
                        (6 * Z.of_nat n)).
Proof.
  intros Hn Hfail. unfold new_safe_while.
  rewrite connect_loop_step, proceed_first.
  cbn [unreachable_failures] in Hfail.
  destruct (remote_connect drv (backend s)) as [[r0|e] w1]; [discriminate|].
  destruct (not_yet_reachable e); [|discriminate].
  rewrite (@connect_loop_skips n 20 1%nat _ w)
    by (cbn [backend moved]; auto; lia).
  rewrite moved_moved. cbn [app]. rewrite Z.add_0_l.
  replace (1 + n)%nat with (S n) by lia. reflexivity.
Qed.

(** The connection comes up at attempt N + 1. *)
Lemma connect_loop_connects (N : nat) (s : state W) (w w1 : W) :
  (N + 1 <= 20)%nat ->
  unreachable_failures (remote_connect drv) N (backend s) = Some w ->
  remote_connect drv w = (Ok tt, w1) ->
  connect_loop self 21 (new_safe_while 6 20 0) s
  = (Ok tt, moved s w1 (repeat Call_remote_connect (N + 1)) []
                  (6 * Z.of_nat N)).
Proof.
  intros HN Hfail Hok. destruct N as [|n].
  - cbn [unreachable_failures] in Hfail. injection Hfail as <-.
    unfold new_safe_while. rewrite connect_loop_step, proceed_first, Hok.
    reflexivity.
  - rewrite (@connect_skips n s w) by (auto; lia).
    assert (Hfuel : exists fuel, (20 - n)%nat = S fuel)
      by (exists (19 - n)%nat; lia).
    destruct Hfuel as [fuel ->].
    rewrite connect_loop_step, proceed_sleeps by lia.
    cbn [backend moved]. rewrite Hok, !moved_moved.
    rewrite Nat.add_1_r, <- repeat_cons. cbn [app].
    replace (6 * Z.of_nat n + (6 + 0)) with (6 * Z.of_nat (S n)) by lia.
    reflexivity.
Qed.

End FinishFacts.

(** X17: a failure of the DNS update is not followed by any cleanup:
    the volumes are in place, [_create] makes the one DNS call and
    raises its exception, with no sweep, no wait and no readiness
    poll; with no address to register it raises IndexError without
    even that call. *)
Theorem dns_failure_is_not_rolled_back :
  forall W (self : Provisioner W) (s s0 s1 : state W),
    create_node_and_wait self s = (Ok tt, s0) ->
    _create_volumes self s0 = (Ok true, s1) ->
    (forall ip more e w,
        ips s1 = Some (ip :: more) ->
        nsupdate (driver (provider self)) (name self) ip (backend s1)
        = (Raise e, w) ->
        _create self s
        = (Raise e, moved s1 w [Call_nsupdate (name self) ip] [] 0))
    /\ (ips s1 = Some [] -> _create self s = (Raise IndexError, s1)).
Proof.
  intros W self s s0 s1 Hprelude Hvol.
  rewrite (create_after_prelude self s Hprelude).
  rewrite (finish_after_volumes self s0 Hvol).
  unfold _update_dns. rewrite bind_run. unfold get. split.
  - intros ip more e w Hips Hdns. rewrite Hips, invoke_run, Hdns. reflexivity.
  - intros Hips. now rewrite Hips.
Qed.

Lemma dns_failure_is_not_rolled_back_witness :
  fst (_create (provisioner_on dns_down) Mock.start) = Raise HTTPError
  /\ skipn 12 (calls (snd (_create (provisioner_on dns_down) Mock.start)))
     = [Call_nsupdate "vm07" "10.0.0.5"]
  /\ Mock.volumes (backend (snd (_create (provisioner_on dns_down) Mock.start)))
     = [mkVolume 100 "vm070_0"; mkVolume 0 "vm07_0"; mkVolume 1 "vm07_1";
        mkVolume 2 "vm07_2"]
  /\ fst (_create (provisioner_on no_address) Mock.start) = Raise IndexError.
Proof.
  let v := eval vm_compute in
      (snd (create_node_and_wait (provisioner_on dns_down) Mock.start)) in
  pose (s0 := v).
  let v := eval vm_compute in
      (snd (_create_volumes (provisioner_on dns_down) s0)) in
  pose (s1 := v).
  let v := eval vm_compute in
      (snd (create_node_and_wait (provisioner_on no_address) Mock.start)) in
  pose (t0 := v).
  let v := eval vm_compute in
      (snd (_create_volumes (provisioner_on no_address) t0)) in
  pose (t1 := v).
  destruct (@dns_failure_is_not_rolled_back _ (provisioner_on dns_down)
              Mock.start s0 s1) as [H _]; [reflexivity | reflexivity |].
  destruct (@dns_failure_is_not_rolled_back _ (provisioner_on no_address)
              Mock.start t0 t1) as [_ H']; [reflexivity | reflexivity |].
  rewrite (H "10.0.0.5" [] HTTPError (backend s1) eq_refl eq_refl).
  rewrite (H' eq_refl).
  repeat split.
Defined.

(** X18: when the first N connection attempts fail with a socket,
    no-valid-connection or authentication error (N + 1 <= 20) and the
    next one succeeds, [_wait_for_ready] has connected N + 1 times,
    waited 6 seconds before each attempt but the first, and then runs
    the sentinel command exactly once with a timeout of 600; its
    result is the result of that command. *)
Theorem wait_for_ready_polls_then_runs :
  forall W (self : Provisioner W) (s : state W) (n : Node) (N : nat) w w1 r w2,
    let drv := driver (provider self) in
    _node s = Some n ->
    (N + 1 <= 20)%nat ->
    unreachable_failures (remote_connect drv) N (backend s) = Some w ->
    remote_connect drv w = (Ok tt, w1) ->
    remote_run drv sentinel_command 600 w1 = (r, w2) ->
    exists s',
      _wait_for_ready self s = (r, s')
      /\ backend s' = w2
      /\ calls s' = (calls s ++ repeat Call_remote_connect (N + 1)
                       ++ [Call_remote_run sentinel_command 600])%list
      /\ slept s' = slept s + 6 * Z.of_nat N
      /\ logged s' = (logged s ++ match r with
                                  | Ok _ => [node_is_ready n]
                                  | Raise _ => []
                                  end)%list.
Proof.
  intros W self s n N w w1 r w2 drv Hnode HN Hfail Hok Hrun.
  unfold _wait_for_ready. rewrite bind_run.
  rewrite (@connect_loop_connects W self N s w w1) by assumption.
  change ("while [ ! -e '" ++ _sentinel_path ++ "' ]; do sleep 5; done")
    with sentinel_command.
  rewrite bind_run, invoke_run. cbn [backend moved]. fold drv. rewrite Hrun.
  cbn [fst snd]. destruct r as [[]|e].
  - rewrite bind_run, node_when_cached with (n := n) by exact Hnode.
    rewrite log_run. eexists. split; [reflexivity|].
    cbn [moved backend calls slept logged]. rewrite <- !app_assoc.
    repeat split; cbn [app]; try reflexivity. lia.
  - eexists. split; [reflexivity|].
    cbn [moved backend calls slept logged]. rewrite <- !app_assoc, !app_nil_r.
    repeat split; cbn [app]; try reflexivity. lia.
Qed.

Lemma wait_for_ready_polls_then_runs_witness :
  let self := booting_self false in
  let n := mkNode 7 "vm07" in
  let s := with_node n (fresh 3%nat) in
  exists s',
    _wait_for_ready self s = (Ok tt, s')
    /\ backend s' = 0%nat
    /\ calls s' = ([] ++ repeat Call_remote_connect (3 + 1)
                     ++ [Call_remote_run sentinel_command 600])%list
    /\ slept s' = 0 + 6 * Z.of_nat 3
    /\ logged s' = ([] ++ [node_is_ready n])%list.
Proof.
  intros self n s.
  apply (@wait_for_ready_polls_then_runs nat self s n 3%nat 0%nat 0%nat (Ok tt) 0%nat);
    try reflexivity.
  lia.
Defined.

(** X19: a machine that stays unreachable is given up after 20
    connection attempts and 19 waits of 6 seconds: [_wait_for_ready]
    raises MaxWhileTries and never runs the sentinel command; an
    exception of another kind ends the polling at once. *)
Theorem wait_for_ready_gives_up :
  forall W (self : Provisioner W) (s : state W),
    let drv := driver (provider self) in
    (forall w,
        unreachable_failures (remote_connect drv) 20 (backend s) = Some w ->
        _wait_for_ready self s
        = (Raise MaxWhileTries,
           moved s w (repeat Call_remote_connect 20) [] 114))
    /\ (forall e w,
           remote_connect drv (backend s) = (Raise e, w) ->
           not_yet_reachable e = false ->
           _wait_for_ready self s
           = (Raise e, moved s w [Call_remote_connect] [] 0)).
Proof.
  intros W self s drv. split.
  - intros w Hfail. unfold _wait_for_ready. rewrite bind_run.
    rewrite (@connect_skips W self 19 s w) by (auto; lia).
    change (20 - 19)%nat with 1%nat.
    rewrite connect_loop_step, proceed_gives_up by lia. reflexivity.
  - intros e w Hc He. unfold _wait_for_ready. rewrite bind_run.
    unfold new_safe_while. rewrite connect_loop_step, proceed_first.
    fold drv. now rewrite Hc, He.
Qed.

Lemma wait_for_ready_gives_up_witness :
  let lost := OpenStackProvisioner
                (mkProvider "openstack" no_route None None (fun _ _ => false))
                "vm07" "ubuntu" "18.04" None None "" in
  _wait_for_ready (booting_self true) (fresh 0%nat)
  = (Raise MaxWhileTries,
     moved (fresh 0%nat) 20%nat (repeat Call_remote_connect 20) [] 114)
  /\ _wait_for_ready lost (fresh tt)
     = (Raise (BackendError "no route"),
        moved (fresh tt) tt [Call_remote_connect] [] 0).
Proof.
  intros lost. split.
  - apply (proj1 (wait_for_ready_gives_up (booting_self true) (fresh 0%nat))).
    reflexivity.
  - apply (proj2 (wait_for_ready_gives_up lost (fresh tt))); reflexivity.
Defined.

(* ================================================================== *)
(** * The first half of _create *)

Section PreludeFacts.

Context {W : Type} (self : Provisioner W).

Let drv : Driver W := driver (provider self).

Lemma bind_ok_inv {A B} (m : M W A) (k : A -> M W B) (s s' : state W) (b : B) :
  bind m k s = (Ok b, s') ->
  exists a s1, m s = (Ok a, s1) /\ k a s1 = (Ok b, s').
Proof.
  rewrite bind_run. destruct (m s) as [[a|e] s1]; [|discriminate].
  intros H. now exists a, s1.
Qed.

Lemma image_on_cached_catalog (s : state W) (imgs : list Image) :
  _images s = Some imgs ->
  image self s = (Select.image imgs (os_type self) (os_version self), s).
Proof.
  intros H. unfold image. rewrite bind_run, (images_cached _ s H). reflexivity.
Qed.

Lemma security_groups_on_cached_catalog (s : state W) (grps : list SecurityGroup) :
  _security_groups s = Some grps ->
  security_groups self s
  = (Select.security_groups (conf_security_groups (provider self)) grps, s).
Proof.
  intros H. unfold security_groups.
  destruct (conf_security_groups (provider self)) as [names|]; [|reflexivity].
  rewrite bind_run. unfold provider_security_groups. rewrite bind_run.
  unfold get at 1. now rewrite H.
Qed.

(** What follows the create call in the first half of [_create]. *)
Lemma after_create_node (s : state W) (created : Node) :
  exists k ls t r w,
    (1 <= k <= 24)%nat
    /\ (modify (with_node created) ;;
        node_ <- node self ;;
        log DEBUG "Created node: %s" [ANode node_] ;;
        node_ <- node self ;;
        results <- retry (Call_wait_until_running [node_])
                         (wait_until_running drv [node_]) ;;
        match results with
        | [] => raise IndexError
        | (n, ips_) :: _ =>
            modify (with_node n) ;;
            modify (with_ips ips_) ;;
            node_ <- node self ;;
            log DEBUG "Node started: %s" [ANode node_]
        end) s
       = (r, w)
    /\ calls w = (calls s ++ repeat (Call_wait_until_running [Some created]) k)%list
    /\ logged w = (logged s ++ ls)%list
    /\ slept w = slept s + t.
Proof.
  rewrite bind_run. cbn [modify].
  rewrite bind_run, node_when_cached with (n := created) by reflexivity.
  rewrite bind_run, log_run, bind_run.
  rewrite node_when_cached with (n := created) by reflexivity.
  rewrite bind_run.
  destruct (retry_moves (Call_wait_until_running [Some created])
              (wait_until_running drv [Some created])
              (moved (with_node created s) (backend (with_node created s)) []
                     [mkLog DEBUG "Created node: %s" [ANode (Some created)]] 0))
    as (r & w & k & ls & t & Hrun & Hk).
  fold drv. rewrite Hrun. unfold retry_tries in Hk.
  destruct r as [[|[n ips_] more]|e].
  - exists k. do 4 eexists. split; [exact Hk|]. split; [reflexivity|].
    cbn [moved with_node calls logged slept].
    split; [now rewrite ?app_nil_r | split].
    + rewrite <- ?app_assoc. reflexivity.
    + rewrite <- ?Z.add_assoc. reflexivity.
  - rewrite bind_run. cbn [modify]. rewrite bind_run. cbn [modify].
    rewrite bind_run.
    rewrite node_when_cached with (n := n) by reflexivity. rewrite log_run.
    exists k. do 4 eexists. split; [exact Hk|]. split; [reflexivity|].
    cbn [moved with_node with_ips calls logged slept backend].
    split; [now rewrite ?app_nil_r | split].
    + rewrite <- ?app_assoc. reflexivity.
    + rewrite <- ?Z.add_assoc. reflexivity.
  - exists k. do 4 eexists. split; [exact Hk|]. split; [reflexivity|].
    cbn [moved with_node calls logged slept].
    split; [now rewrite ?app_nil_r | split].
    + rewrite <- ?app_assoc. reflexivity.
    + rewrite <- ?Z.add_assoc. reflexivity.
Qed.

End PreludeFacts.

(** X20: with the four catalogs at hand, the first half of [_create]
    asks the backend for nothing but the node.  After its three debug
    records it makes one retried create_node whose arguments are the
    node name, the selected size and image and the userdata, the
    networks only when there are some and the security groups only
    when some are configured.  If that call fails, its exception comes
    out and nothing else was called; if it answers a node, one retried
    wait_until_running for that very node follows, and nothing else. *)
Theorem create_request_is_assembled :
  forall W (self : Provisioner W) (s : state W)
         imgs szs nets grps machine r d c sz im sgs,
    _images s = Some imgs ->
    _sizes s = Some szs ->
    _networks s = Some nets ->
    _security_groups s = Some grps ->
    Conf.item (conf self) "machine" = Ok machine ->
    Conf.item machine "ram" = Ok (Conf.Num r) ->
    Conf.item machine "disk" = Ok (Conf.Num d) ->
    Conf.item machine "cpus" = Ok (Conf.Num c) ->
    Select.size szs r d c = Ok sz ->
    Select.image imgs (os_type self) (os_version self) = Ok im ->
    Select.security_groups (conf_security_groups (provider self)) grps = Ok sgs ->
    let args := request_for self sz im nets sgs in
    let create := Call_create_node args in
    let s3 := moved s (backend s) [] (selection_logged self sz im) 0 in
    (forall e s4,
        retry create (create_node (driver (provider self)) args) s3 = (Raise e, s4) ->
        create_node_and_wait self s = (Raise e, s4)
        /\ exists k, (1 <= k <= 24)%nat
                     /\ calls s4 = (calls s ++ repeat create k)%list)
    /\ (forall created s4,
           retry create (create_node (driver (provider self)) args) s3
           = (Ok created, s4) ->
           exists k k',
             (1 <= k <= 24)%nat /\ (1 <= k' <= 24)%nat
             /\ calls s4 = (calls s ++ repeat create k)%list
             /\ calls (snd (create_node_and_wait self s))
                = (calls s4
                     ++ repeat (Call_wait_until_running [Some created]) k')%list).
Proof.
  intros W self s imgs szs nets grps machine r d c sz im sgs
         Hi Hs Hn Hg Hm Hr Hd Hc Hsz Him Hsg args create s3.
  assert (Hcalls : forall res s4,
             retry create (create_node (driver (provider self)) args) s3 = (res, s4) ->
             exists k, (1 <= k <= 24)%nat
                       /\ calls s4 = (calls s ++ repeat create k)%list).
  { intros res s4 Hrun.
    destruct (retry_moves create (create_node (driver (provider self)) args) s3)
      as (res' & w & k & ls & t & Hrun' & Hk).
    rewrite Hrun in Hrun'. injection Hrun' as _ ->.
    exists k. split; [exact Hk|].
    unfold s3. cbn [moved calls]. now rewrite app_nil_r. }
  unfold create_node_and_wait.
  rewrite bind_run, log_run.
  rewrite bind_run, size_on_cached_catalog
    with (all_sizes := szs) (machine := machine) (r := r) (d := d) (c := c)
    by (cbn [moved _sizes]; assumption).
  rewrite Hsz, bind_run, log_run.
  rewrite bind_run, image_on_cached_catalog with (imgs := imgs)
    by (cbn [moved _images]; assumption).
  rewrite Him, bind_run, log_run.
  rewrite bind_run, size_on_cached_catalog
    with (all_sizes := szs) (machine := machine) (r := r) (d := d) (c := c)
    by (cbn [moved _sizes]; assumption).
  rewrite Hsz.
  rewrite bind_run, image_on_cached_catalog with (imgs := imgs)
    by (cbn [moved _images]; assumption).
  rewrite Him.
  rewrite bind_run, networks_cached with (x := nets)
    by (cbn [moved _networks]; assumption).
  rewrite bind_run, security_groups_on_cached_catalog with (grps := grps)
    by (cbn [moved _security_groups]; assumption).
  rewrite Hsg. cbv zeta. fold (request_for self sz im nets sgs).
  fold args. fold create.
  rewrite !moved_moved. rewrite bind_run.
  change (moved s _ _ _ _) with s3.
  split.
  - intros e s4 Hrun. rewrite Hrun. split; [reflexivity|].
    exact (Hcalls _ _ Hrun).
  - intros created s4 Hrun. rewrite Hrun.
    destruct (Hcalls _ _ Hrun) as (k & Hk & Hs4).
    destruct (after_create_node self s4 created)
      as (k' & ls' & t' & r' & w' & Hk' & Hrest & Hw & _).
    exists k, k'. split; [exact Hk | split; [exact Hk' | split; [exact Hs4|]]].
    rewrite Hrest. exact Hw.
Qed.

Lemma create_request_is_assembled_witness :
  let self := Mock.self None true in
  let lost := provisioner_on create_refused in
  let args := mkCreateArgs "vm07" (mkSize "m1.large" 8192 40 2)
                           (mkImage 1 "Ubuntu 18.04 server") "#cloud-config"
                           None (Some [mkGroup 1 "web"]) in
  let created := mkNode 7 "vm07" in
  (exists k',
      (1 <= k' <= 24)%nat
      /\ calls (snd (create_node_and_wait self catalogued))
         = ([Call_create_node args]
              ++ repeat (Call_wait_until_running [Some created]) k')%list)
  /\ fst (create_node_and_wait lost catalogued) = Raise (BackendError "no capacity")
  /\ calls (snd (create_node_and_wait lost catalogued)) = [Call_create_node args].
Proof.
  intros self lost args created.
  pose (imgs := [mkImage 1 "Ubuntu 18.04 server"; mkImage 2 "centos-7"]).
  pose (szs := [mkSize "m1.small" 2048 20 1; mkSize "m1.large" 8192 40 2]).
  pose (grps := [mkGroup 1 "web"; mkGroup 2 "db"]).
  pose (machine := Conf.Dict (Conf.DCons "disk" (Conf.Num 20)
                             (Conf.DCons "ram" (Conf.Num 8000)
                             (Conf.DCons "cpus" (Conf.Num 1) Conf.DNil)))).
  split.
  - let v := eval vm_compute in
        (snd (retry (Call_create_node args)
                    (create_node (driver (provider self)) args)
                    (moved catalogued (backend catalogued) []
                           (selection_logged self (mkSize "m1.large" 8192 40 2)
                                             (mkImage 1 "Ubuntu 18.04 server")) 0))) in
    pose (s4 := v).
    destruct (@create_request_is_assembled _ self catalogued imgs szs [] grps
                machine 8000 20 1 (mkSize "m1.large" 8192 40 2)
                (mkImage 1 "Ubuntu 18.04 server") (Some [mkGroup 1 "web"]))
      as [_ H]; try reflexivity.
    destruct (H created s4) as (k & k' & _ & Hk' & _ & Hw); [reflexivity|].
    exists k'. split; [exact Hk' | exact Hw].
  - let v := eval vm_compute in
        (snd (retry (Call_create_node args)
                    (create_node (driver (provider lost)) args)
                    (moved catalogued (backend catalogued) []
                           (selection_logged lost (mkSize "m1.large" 8192 40 2)
                                             (mkImage 1 "Ubuntu 18.04 server")) 0))) in
    pose (s4 := v).
    destruct (@create_request_is_assembled _ lost catalogued imgs szs [] grps
                machine 8000 20 1 (mkSize "m1.large" 8192 40 2)
                (mkImage 1 "Ubuntu 18.04 server") (Some [mkGroup 1 "web"]))
      as [H _]; try reflexivity.
    destruct (H (BackendError "no capacity") s4) as [Hrun _]; [reflexivity|].
    rewrite Hrun. split; reflexivity.
Defined.

Section PreludeResult.

Context {W : Type} (self : Provisioner W).

Lemma prelude_stores_node (s s0 : state W) :
  create_node_and_wait self s = (Ok tt, s0) ->
  exists n addresses, _node s0 = Some n /\ ips s0 = Some addresses.
Proof.
  intros H. unfold create_node_and_wait in H.
  do 14 (apply bind_ok_inv in H as (? & ? & _ & H)).
  apply bind_ok_inv in H as (results & s' & _ & H).
  destruct results as [|[n addresses] more]; [discriminate|].
  rewrite bind_run in H. cbn [modify] in H.
  rewrite bind_run in H. cbn [modify] in H.
  rewrite bind_run, node_when_cached with (n := n) in H by reflexivity.
  rewrite log_run in H. injection H as <-.
  exists n, addresses. split; reflexivity.
Qed.

End PreludeResult.

(** X21: when the first half of [_create] succeeds, the node and its
    addresses are stored on the provisioner, so that every later
    access to the node is answered from there, without listing the
    nodes of the backend. *)
Theorem created_node_is_kept :
  forall W (self : Provisioner W) (s s0 : state W),
    create_node_and_wait self s = (Ok tt, s0) ->
    exists n addresses,
      _node s0 = Some n
      /\ ips s0 = Some addresses
      /\ node self s0 = (Ok (Some n), s0).
Proof.
  intros W self s s0 H.
  destruct (prelude_stores_node self s H) as (n & addresses & Hn & Ha).
  exists n, addresses. split; [exact Hn | split; [exact Ha|]].
  now apply node_when_cached.
Qed.

Lemma created_node_is_kept_witness :
  exists n addresses,
    _node (snd (create_node_and_wait (Mock.self None true) Mock.start)) = Some n
    /\ ips (snd (create_node_and_wait (Mock.self None true) Mock.start))
       = Some addresses
    /\ node (Mock.self None true)
            (snd (create_node_and_wait (Mock.self None true) Mock.start))
       = (Ok (Some n), snd (create_node_and_wait (Mock.self None true) Mock.start)).
Proof.
  apply (@created_node_is_kept _ (Mock.self None true) Mock.start).
  vm_compute. reflexivity.
Defined.

(* ================================================================== *)
(** * Node lookup and destruction on a catalog that is not empty *)

(** X22: on a node catalog that is not empty, the first access to the
    node lists the nodes once (retried) and then: with no node of the
    name it warns and answers None, caching nothing; with exactly one
    it answers that node and stores it, so that the next access makes
    no call; with several it raises the "more than one node" error
    and stores nothing. *)
Theorem node_lookup_on_listed_nodes :
  forall W (self : Provisioner W) (s s1 : state W) (n : Node) (ns : list Node),
    _node s = None ->
    retry Call_list_nodes (list_nodes (driver (provider self))) s
    = (Ok (n :: ns), s1) ->
    match filter (fun x => String.eqb (node_name x) (name self)) (n :: ns) with
    | [] =>
        exists s2,
          node self s = (Ok None, s2)
          /\ calls s2 = calls s1 /\ _node s2 = None
          /\ logged s2 = (logged s1 ++ [no_nodes_found (name self)])%list
    | [found] =>
        exists s2,
          node self s = (Ok (Some found), s2)
          /\ calls s2 = calls s1 /\ logged s2 = logged s1
          /\ node self s2 = (Ok (Some found), s2)
    | _ :: _ :: _ =>
        node self s
        = (Raise (RuntimeError ["More than one node found with name '"
                                  ++ name self ++ "'"]), s1)
        /\ _node s1 = None
    end.
Proof.
  intros W self s s1 n ns Hc Hlist.
  rewrite (node_lookup self s Hc), Hlist.
  destruct (retry_moves Call_list_nodes (list_nodes (driver (provider self))) s)
    as (r & w & k & ls & t & Hrun & _).
  rewrite Hlist in Hrun. injection Hrun as _ ->.
  change (filter (fun x => String.eqb (node_name x) (name self)) (n :: ns))
    with (node_matches self (n :: ns)).
  destruct (node_matches self (n :: ns)) as [|found [|other more]].
  - eexists. split; [reflexivity|]. cbn [moved calls _node logged].
    rewrite app_nil_r. repeat split. exact Hc.
  - eexists. split; [reflexivity|]. cbn [with_node moved calls logged].
    repeat split.
  - split; [reflexivity | exact Hc].
Qed.

Lemma node_lookup_on_listed_nodes_witness :
  let self := Mock.self None true in
  (exists s2,
      node self (fresh (Mock.mkCloud 0 [mkNode 1 "other"; mkNode 2 "vm07"] [] 0))
      = (Ok (Some (mkNode 2 "vm07")), s2)
      /\ calls s2 = [Call_list_nodes] /\ logged s2 = []
      /\ node self s2 = (Ok (Some (mkNode 2 "vm07")), s2))
  /\ (exists s2,
         node self (fresh (Mock.mkCloud 0 [mkNode 1 "other"] [] 0)) = (Ok None, s2)
         /\ calls s2 = [Call_list_nodes] /\ _node s2 = None
         /\ logged s2 = ([] ++ [no_nodes_found "vm07"])%list)
  /\ fst (node self (fresh (Mock.mkCloud 0 [mkNode 1 "vm07"; mkNode 2 "vm07"] [] 0)))
     = Raise (RuntimeError ["More than one node found with name 'vm07'"]).
Proof.
  intros self. split; [|split].
  - exact (@node_lookup_on_listed_nodes _ self
             (fresh (Mock.mkCloud 0 [mkNode 1 "other"; mkNode 2 "vm07"] [] 0))
             (snd (retry Call_list_nodes (list_nodes (driver (provider self)))
                         (fresh (Mock.mkCloud 0 [mkNode 1 "other"; mkNode 2 "vm07"]
                                              [] 0))))
             (mkNode 1 "other") [mkNode 2 "vm07"] eq_refl eq_refl).
  - exact (@node_lookup_on_listed_nodes _ self
             (fresh (Mock.mkCloud 0 [mkNode 1 "other"] [] 0))
             (snd (retry Call_list_nodes (list_nodes (driver (provider self)))
                         (fresh (Mock.mkCloud 0 [mkNode 1 "other"] [] 0))))
             (mkNode 1 "other") [] eq_refl eq_refl).
  - destruct (@node_lookup_on_listed_nodes _ self
                (fresh (Mock.mkCloud 0 [mkNode 1 "vm07"; mkNode 2 "vm07"] [] 0))
                (snd (retry Call_list_nodes (list_nodes (driver (provider self)))
                            (fresh (Mock.mkCloud 0 [mkNode 1 "vm07"; mkNode 2 "vm07"]
                                                 [] 0))))
                (mkNode 1 "vm07") [mkNode 2 "vm07"] eq_refl eq_refl) as [H _].
    now rewrite H.
Defined.

(** X23: on a node catalog that is not empty, [_destroy] of a name
    that no listed node carries answers True after the one (retried)
    listing of the nodes, with no volume and no node call; with
    several nodes of that name it raises the "more than one node"
    error, again without any further call. *)
Theorem destroy_without_a_match :
  forall W (self : Provisioner W) (s s1 : state W) (n : Node) (ns : list Node),
    _node s = None ->
    retry Call_list_nodes (list_nodes (driver (provider self))) s
    = (Ok (n :: ns), s1) ->
    (node_matches self (n :: ns) = [] ->
     fst (_destroy self s) = Ok true
     /\ calls (snd (_destroy self s)) = calls s1)
    /\ (forall a b more,
           node_matches self (n :: ns) = a :: b :: more ->
           fst (_destroy self s) = Raise (many_nodes_error (name self))
           /\ calls (snd (_destroy self s)) = calls s1).
Proof.
  intros W self s s1 n ns Hc Hlist.
  pose proof (node_lookup self s Hc) as Hnode. rewrite Hlist in Hnode.
  split.
  - intros Hnone. rewrite Hnone in Hnode.
    rewrite (destroy_absent self s Hnode). cbn [fst snd moved calls].
    now rewrite app_nil_r.
  - intros a b more Hmany. rewrite Hmany in Hnode.
    unfold _destroy. rewrite bind_run, Hnode. now split.
Qed.

Lemma destroy_without_a_match_witness :
  let self := Mock.self None true in
  let s := fresh (Mock.mkCloud 0 [mkNode 1 "other"] [mkVolume 1 "vm07_0"] 0) in
  let t := fresh (Mock.mkCloud 0 [mkNode 1 "vm07"; mkNode 2 "vm07"]
                               [mkVolume 1 "vm07_0"] 0) in
  (fst (_destroy self s) = Ok true
   /\ calls (snd (_destroy self s)) = [Call_list_nodes])
  /\ (fst (_destroy self t) = Raise (many_nodes_error "vm07")
      /\ calls (snd (_destroy self t)) = [Call_list_nodes]).
Proof.
  intros self s t. split.
  - exact (proj1 (@destroy_without_a_match _ self s
                    (snd (retry Call_list_nodes
                                (list_nodes (driver (provider self))) s))
                    (mkNode 1 "other") [] eq_refl eq_refl) eq_refl).
  - exact (proj2 (@destroy_without_a_match _ self t
                    (snd (retry Call_list_nodes
                                (list_nodes (driver (provider self))) t))
                    (mkNode 1 "vm07") [mkNode 2 "vm07"] eq_refl eq_refl)
                 (mkNode 1 "vm07") (mkNode 2 "vm07") [] eq_refl).
Defined.

(* ================================================================== *)
(** * What _create hands back *)

Section CreateFrames.

Context {W : Type} (self : Provisioner W).

Let drv : Driver W := driver (provider self).

(** Every step of [_create] after the first half leaves the
    attributes alone: only the backend, the calls, the log and the
    clock move on. *)
Lemma proceed_moves (sw : safe_while) (s : state W) :
  exists r t, proceed sw s = (r, moved s (backend s) [] [] t).
Proof.
  unfold proceed. destruct (S (counter sw) =? 1)%nat.
  - eexists _, 0. unfold ret. now rewrite moved_nothing.
  - destruct (sw_tries sw <? S (counter sw))%nat.
    + eexists _, 0. unfold raise. now rewrite moved_nothing.
    + eexists _, _. rewrite bind_run, sleep_run. reflexivity.
Qed.

Lemma create_and_attach_moves (size_ : Conf.value) (nm : string)
      (s : state W) (n : Node) :
  _node s = Some n ->
  exists r w cs ls t,
    create_and_attach self size_ nm s = (r, moved s w cs ls t).
Proof.
  intros Hn. unfold create_and_attach. rewrite bind_run.
  destruct (retry_moves (Call_create_volume size_ nm)
              (create_volume drv size_ nm) s)
    as (r & w & k & ls & t & Hrun & _).
  fold drv. rewrite Hrun. destruct r as [vol|e]; [|now do 5 eexists].
  rewrite bind_run, log_run, moved_moved, bind_run.
  rewrite node_when_cached with (n := n) by exact Hn.
  rewrite bind_run.
  match goal with
  | |- context [retry ?c ?f ?st] =>
      destruct (retry_moves c f st) as (r2 & w2 & k2 & ls2 & t2 & Hrun2 & _);
      rewrite Hrun2
  end.
  rewrite moved_moved. destruct r2; now do 5 eexists.
Qed.

Lemma for_each_moves {B} (body : B -> M W unit) (n : Node) (l : list B) :
  (forall x s, _node s = Some n ->
               exists r w cs ls t, body x s = (r, moved s w cs ls t)) ->
  forall s,
    _node s = Some n ->
    exists r w cs ls t, for_each l body s = (r, moved s w cs ls t).
Proof.
  intros Hbody. induction l as [|x l IH]; intros s Hn.
  - exists (Ok tt), (backend s), [], [], 0. cbn [for_each]. unfold ret.
    now rewrite moved_nothing.
  - cbn [for_each]. rewrite bind_run.
    destruct (Hbody x s Hn) as (r & w & cs & ls & t & Hx). rewrite Hx.
    destruct r as [[]|e]; [|now do 5 eexists].
    destruct (IH (moved s w cs ls t) Hn) as (r2 & w2 & cs2 & ls2 & t2 & Hl).
    rewrite Hl, moved_moved. now do 5 eexists.
Qed.

Lemma create_volumes_moves (s : state W) (n : Node) :
  _node s = Some n ->
  exists r w cs ls t, _create_volumes self s = (r, moved s w cs ls t).
Proof.
  intros Hn. unfold _create_volumes, item, as_int, try_except.
  cbv beta iota delta [bind lift].
  assert (Hstay : forall (A : Type) (e : exn),
             exists (r : result A) w cs ls t,
               (Raise e, s) = (r, moved s w cs ls t)).
  { intros A e. exists (Raise e), (backend s), [], [], 0.
    now rewrite moved_nothing. }
  destruct (Conf.item (conf self) "volumes") as [volumes|e]; [|apply Hstay].
  destruct (Conf.item volumes "count") as [v|e]; [|apply Hstay].
  destruct (Conf.as_int v) as [vol_count|e]; [|apply Hstay].
  destruct (Conf.item volumes "size") as [vol_size|e]; [|apply Hstay].
  destruct (@for_each_moves string (create_and_attach self vol_size) n
              (vol_names self vol_count)
              (fun x s0 H => @create_and_attach_moves vol_size x s0 n H) s Hn)
    as (r & w & cs & ls & t & Hrun).
  rewrite Hrun. destruct r as [[]|e].
  - now do 5 eexists.
  - cbn [Exception]. unfold log_exception. rewrite log_run, moved_moved.
    now do 5 eexists.
Qed.

Lemma create_volumes_false_is_logged (s s1 : state W) :
  _create_volumes self s = (Ok false, s1) ->
  exists e, In (create_failed e) (logged s1).
Proof.
  unfold _create_volumes, item, as_int, try_except.
  cbv beta iota delta [bind lift].
  destruct (Conf.item (conf self) "volumes") as [volumes|e]; [|discriminate].
  destruct (Conf.item volumes "count") as [v|e]; [|discriminate].
  destruct (Conf.as_int v) as [vol_count|e]; [|discriminate].
  destruct (Conf.item volumes "size") as [vol_size|e]; [|discriminate].
  destruct (for_each _ _ s) as [[[]|e] s0]; [discriminate|].
  cbn [Exception]. unfold log_exception. rewrite log_run.
  intros [= <-]. exists e. cbn [moved logged]. apply in_or_app. right. now left.
Qed.

Lemma destroy_volumes_moves (s : state W) :
  exists r w cs ls t, _destroy_volumes self s = (r, moved s w cs ls t).
Proof.
  rewrite destroy_volumes_after.
  destruct (retry_moves Call_list_volumes (list_volumes (driver (provider self))) s)
    as (r & w & k & ls & t & Hrun & _).
  rewrite Hrun. destruct r as [all|e]; [|now do 5 eexists].
  destruct (sweep_moves self (our_volumes self all)
              (moved s w (repeat Call_list_volumes k) ls t))
    as (w' & cs & ls' & t' & Hsweep & _).
  rewrite Hsweep, moved_moved. now do 5 eexists.
Qed.

Lemma update_dns_moves (s : state W) :
  exists r w cs ls t, _update_dns self s = (r, moved s w cs ls t).
Proof.
  unfold _update_dns. rewrite bind_run. unfold get.
  destruct (ips s) as [[|ip more]|].
  - exists (Raise IndexError), (backend s), [], [], 0. now rewrite moved_nothing.
  - rewrite invoke_run. now do 5 eexists.
  - exists (Raise AttributeError), (backend s), [], [], 0. now rewrite moved_nothing.
Qed.

Lemma connect_loop_moves (fuel : nat) :
  forall sw (s : state W),
    exists r w cs ls t, connect_loop self fuel sw s = (r, moved s w cs ls t).
Proof.
  induction fuel as [|fuel IH]; intros sw s.
  - exists (Raise MaxWhileTries), (backend s), [], [], 0.
    cbn [connect_loop]. unfold raise. now rewrite moved_nothing.
  - rewrite connect_loop_step.
    destruct (proceed_moves sw s) as (r & t & Hp). rewrite Hp.
    destruct r as [sw'|e]; [|now do 5 eexists].
    cbn [backend moved].
    destruct (remote_connect (driver (provider self)) (backend s)) as [[[]|e] w].
    + rewrite moved_moved. now do 5 eexists.
    + destruct (not_yet_reachable e).
      * destruct (IH sw' (moved (moved s (backend s) [] [] t) w
                                [Call_remote_connect] [] 0))
          as (r2 & w2 & cs2 & ls2 & t2 & Hrun).
        rewrite Hrun, !moved_moved. now do 5 eexists.
      * rewrite moved_moved. now do 5 eexists.
Qed.

Lemma wait_for_ready_moves (s : state W) (n : Node) :
  _node s = Some n ->
  exists r w cs ls t, _wait_for_ready self s = (r, moved s w cs ls t).
Proof.
  intros Hn. unfold _wait_for_ready. rewrite bind_run.
  destruct (connect_loop_moves 21 (new_safe_while 6 20 0) s)
    as (r & w & cs & ls & t & Hrun).
  rewrite Hrun. destruct r as [[]|e]; [|now do 5 eexists].
  rewrite bind_run, invoke_run. cbn [backend moved].
  destruct (remote_run _ _ _ w) as [[[]|e] w2]; cbn [fst snd].
  - rewrite bind_run, node_when_cached with (n := n) by exact Hn.
    rewrite log_run, !moved_moved. now do 5 eexists.
  - rewrite moved_moved. now do 5 eexists.
Qed.

End CreateFrames.

(** X24: what [_create] hands back.  A node: then it is the node the
    first half stored, never None, and it is still stored afterwards.
    False: then an ERROR record "Failed to create or attach volume!"
    is in the log. *)
Theorem create_returns_the_node_or_false :
  forall W (self : Provisioner W) (s s' : state W) (r : create_result),
    _create self s = (Ok r, s') ->
    match r with
    | ReturnNode x =>
        exists n s0,
          x = Some n
          /\ create_node_and_wait self s = (Ok tt, s0)
          /\ _node s0 = Some n
          /\ _node s' = Some n
    | ReturnFalse => exists e, In (create_failed e) (logged s')
    end.
Proof.
  intros W self s s' r H. unfold _create in H.
  apply bind_ok_inv in H as ([] & s0 & Hprelude & H).
  destruct (prelude_stores_node self s Hprelude) as (n & addresses & Hn & _).
  unfold create_volumes_and_finish in H.
  apply bind_ok_inv in H as (ok & s1 & Hvol & H).
  destruct (create_volumes_moves self s0 Hn) as (rv & w1 & cs1 & ls1 & t1 & Hv).
  rewrite Hv in Hvol. injection Hvol as -> <-.
  destruct ok; cbn [negb] in H.
  - apply bind_ok_inv in H as ([] & s2 & Hdns & H).
    destruct (update_dns_moves self (moved s0 w1 cs1 ls1 t1))
      as (rd & w2 & cs2 & ls2 & t2 & Hd).
    rewrite Hd in Hdns. injection Hdns as -> <-.
    apply bind_ok_inv in H as ([] & s3 & Hsleep & H).
    rewrite sleep_run in Hsleep. injection Hsleep as <-.
    apply bind_ok_inv in H as ([] & s4 & Hwait & H).
    rewrite !moved_moved in Hwait.
    match type of Hwait with
    | _wait_for_ready self ?st = _ =>
        destruct (wait_for_ready_moves self st Hn)
          as (rw & w4 & cs4 & ls4 & t4 & Hw)
    end.
    rewrite Hw in Hwait. injection Hwait as -> <-.
    rewrite bind_run, node_when_cached with (n := n) in H by exact Hn.
    injection H as <- <-.
    exists n, s0. repeat split; assumption.
  - destruct (create_volumes_false_is_logged self s0 Hv) as (e & He).
    apply bind_ok_inv in H as ([] & s2 & Hsweep & H).
    destruct (destroy_volumes_moves self (moved s0 w1 cs1 ls1 t1))
      as (rs & w2 & cs2 & ls2 & t2 & Hs).
    rewrite Hs in Hsweep. injection Hsweep as -> <-.
    injection H as <- <-. exists e.
    cbn [moved logged] in *. apply in_or_app. now left.
Qed.

Lemma create_returns_the_node_or_false_witness :
  (exists n s0,
      Some (mkNode 7 "vm07") = Some n
      /\ create_node_and_wait (Mock.self None true) Mock.start = (Ok tt, s0)
      /\ _node s0 = Some n
      /\ _node (snd (_create (Mock.self None true) Mock.start)) = Some n)
  /\ (exists e,
         In (create_failed e)
            (logged (snd (_create (Mock.self (Some 1%nat) true) Mock.start)))).
Proof.
  split.
  - apply (@create_returns_the_node_or_false _ (Mock.self None true) Mock.start
             (snd (_create (Mock.self None true) Mock.start))
             (ReturnNode (Some (mkNode 7 "vm07")))).
    vm_compute. reflexivity.
  - apply (@create_returns_the_node_or_false _ (Mock.self (Some 1%nat) true)
             Mock.start
             (snd (_create (Mock.self (Some 1%nat) true) Mock.start))
             ReturnFalse).
    vm_compute. reflexivity.
Defined.
